(** * scryptlib: the state codec of [Stateful] and the legacy ASM serializer

    A shallow embedding of the class [Stateful] (stateful.ts), which builds
    and parses the state blob appended to the locking script of a stateful
    contract, of [serializeState] (serializer.ts), and of the functions
    that read the ABI of a contract off its AST.  The functions keep the
    names and the order that they have in the sources.

    Representation.  Every string that the code handles as "hex" holds an
    even number of lower-case hex digits; it is embedded as the byte
    sequence it denotes, a [list Z] of values in [0, 256).  So
    [s.length / 2] is [length s], [a + b] on hex strings is [a ++ b], and
    [s.substr(2 * i, 2 * n)] is [substr s i n] below.  A JavaScript [bigint]
    is a [Z]; a [number] that holds an integer is a [Z] as well. *)

From stdpp Require Import base strings gmap list.
From Stdlib Require Import ZArith Lia.

Local Open Scope Z_scope.

Abbreviation hex := (list Z).

(** ** Errors and the two small monads of the embedding *)

(** What the code can throw.  The first group is thrown by the sources
    under study, the second by the runtime and by the bsv library. *)
Inductive JsError : Type :=
  | Error_invalid_hex (h : hex)
      (* hex2bool: throw new Error(`invalid hex ${hex}`) *)
  | Error_no_state_property
      (* buildState: 'no state property found, ...' *)
  | Error_cannot_cast (type : string)
      (* deserializer: `<${type}> cannot be cast to ScryptType, ...` *)
  | Error_cannot_fit (n : Z) (dataLen : nat)
      (* num2bin: `${n} cannot fit in ${dataLen} byte[s]` *)
  | Error_readBytes (cause : JsError)
      (* readBytes: throw new Error('readBytes: ' + e) *)
  | Error_unknown_type (name type : string)
      (* buildDefaultStateArgs: `param ${p.name} has unknown type ${p.type}` *)
  | Error_missing_template (name : string)
      (* deserializeArgfromHex: the template map has no entry for a leaf *)
  | Error_unsupported_SigHashType (s : Z)
      (* SigHashType: `unsupported SigHashType: ${s}` *)
  | Error_assertion_failed
      (* bn.js: 'Assertion failed', for a number from 2^53 on *)
  | TypeError
      (* a property read on undefined, an argument of the wrong type *)
  | RangeError.
      (* Buffer#readUInt8 and friends outside the buffer *)

Inductive result (A : Type) : Type :=
  | Ok (a : A)
  | Err (e : JsError).
Arguments Ok {A} a.
Arguments Err {A} e.

#[global] Instance result_ret : MRet result := @Ok.
#[global] Instance result_bind : MBind result := fun A B f m =>
  match m with
  | Ok a => f a
  | Err e => Err e
  end.
#[global] Instance result_fmap : FMap result := fun A B f m =>
  match m with
  | Ok a => Ok (f a)
  | Err e => Err e
  end.

(** A [bsv.encoding.BufferReader]: the buffer and a cursor.  Only the bytes
    from the cursor on can be observed, so the state is that suffix. *)
Definition Reader (A : Type) : Type := hex -> result (A * hex).

Definition ret_reader {A} (a : A) : Reader A := fun br => Ok (a, br).
Definition bind_reader {A B} (m : Reader A) (f : A -> Reader B) : Reader B :=
  fun br =>
    match m br with
    | Ok (a, br') => f a br'
    | Err e => Err e
    end.
Definition throw_reader {A} (e : JsError) : Reader A := fun _ => Err e.

Declare Scope reader_scope.
Delimit Scope reader_scope with reader.
Notation "'let*' x := m 'in' k" := (bind_reader m (fun x => k))
  (at level 10, x name, m at level 100, k at level 200) : reader_scope.

(** ** JavaScript strings and buffers *)

(** [String.prototype.substr(start, length)], in bytes: a negative [start]
    counts from the end, and both ends are clamped to the string. *)
Definition substr (s : hex) (start len : Z) : hex :=
  let size := Z.of_nat (length s) in
  let from := if start <? 0 then Z.max (size + start) 0 else Z.min start size in
  let n := Z.min (Z.max len 0) (size - from) in
  take (Z.to_nat n) (drop (Z.to_nat from) s).

(** The values that a byte of a buffer takes. *)
Definition is_byte (b : Z) : Prop := 0 <= b < 256.

(** ['00'.repeat(n)] *)
Definition zeros (n : nat) : hex := replicate n 0.

(** [BufferReader#readUInt8]: Node throws a RangeError past the end. *)
Definition readUInt8 : Reader Z := fun br =>
  match br with
  | b :: br' => Ok (b, br')
  | [] => Err RangeError
  end.

Definition readUInt16LE : Reader Z := fun br =>
  match br with
  | b0 :: b1 :: br' => Ok (b0 + 256 * b1, br')
  | _ => Err RangeError
  end.

Definition readUInt32LE : Reader Z := fun br =>
  match br with
  | b0 :: b1 :: b2 :: b3 :: br' =>
      Ok (b0 + 256 * b1 + 65536 * b2 + 16777216 * b3, br')
  | _ => Err RangeError
  end.

(** [BufferReader#read(len)] is [buf.slice(pos, pos + len)]: it never
    throws, a request past the end returns what is left. *)
Definition read (len : Z) : Reader hex := fun br =>
  Ok (take (Z.to_nat len) br, drop (Z.to_nat len) br).

(** ** bsv.crypto.BN *)

(** The little-endian base-256 digits of a positive number; [fuel] bounds
    the number of digits. *)
Fixpoint le_digits (fuel : nat) (n : Z) : hex :=
  match fuel with
  | O => []
  | S fuel' => if n =? 0 then [] else (n mod 256) :: le_digits fuel' (n / 256)
  end.

(** [BN#toBuffer()]: the big-endian magnitude, one zero byte for 0. *)
Definition BN_toBuffer (n : Z) : hex :=
  if n =? 0 then [0]
  else reverse (le_digits (S (Z.to_nat (Z.log2 n))) n).

(** [BN.fromBuffer(buf, {endian: 'little'})]. *)
Fixpoint BN_fromLE (h : hex) : Z :=
  match h with
  | [] => 0
  | b :: h' => b + 256 * BN_fromLE h'
  end.

(** [BN#toSMBigEndian()]: sign and magnitude, the sign in the top bit of
    the first byte; zero is the empty buffer. *)
Definition BN_toSMBigEndian (n : Z) : hex :=
  let buf :=
    if n <? 0 then
      match BN_toBuffer (- n) with
      | b0 :: bs =>
          if Z.land b0 128 =? 0 then Z.lor b0 128 :: bs else 128 :: b0 :: bs
      | [] => []
      end
    else
      match BN_toBuffer n with
      | b0 :: bs => if Z.land b0 128 =? 0 then b0 :: bs else 0 :: b0 :: bs
      | [] => []
      end in
  match buf with
  | [0] => []
  | _ => buf
  end.

(** [num.toSM({ endian: 'little' })] *)
Definition BN_toSM_little (n : Z) : hex := reverse (BN_toSMBigEndian n).

(** ** bsv.Script *)

Definition OP_PUSHDATA1 : Z := 76.
Definition OP_PUSHDATA2 : Z := 77.
Definition OP_PUSHDATA4 : Z := 78.

Record Chunk : Type := mkChunk {
  chunk_buf : option hex;
  chunk_len : Z;
  chunk_opcodenum : option Z
}.

(** [Script.fromASM(token)] for one token of hex digits: the token is no
    opcode name, so it becomes one data chunk whose opcode is chosen by the
    length.  A buffer of 2^32 bytes or more leaves the opcode undefined. *)
Definition Script_fromASM (data : hex) : list Chunk :=
  let len := Z.of_nat (length data) in
  let opcodenum :=
    if len <? OP_PUSHDATA1 then Some len
    else if len <? 2 ^ 8 then Some OP_PUSHDATA1
    else if len <? 2 ^ 16 then Some OP_PUSHDATA2
    else if len <? 2 ^ 32 then Some OP_PUSHDATA4
    else None in
  [ {| chunk_buf := Some data; chunk_len := len; chunk_opcodenum := opcodenum |} ].

Definition writeUInt16LE (n : Z) : hex := [n mod 256; (n / 256) mod 256].
Definition writeUInt32LE (n : Z) : hex :=
  [n mod 256; (n / 256) mod 256; (n / 65536) mod 256; (n / 16777216) mod 256].

(** One chunk of [Script#toBuffer]. *)
Definition Chunk_toBuffer (c : Chunk) : result hex :=
  match chunk_opcodenum c with
  | None => Err TypeError               (* bw.writeUInt8(undefined) *)
  | Some opcodenum =>
      match chunk_buf c with
      | None => Ok [opcodenum]
      | Some buf =>
          if opcodenum <? OP_PUSHDATA1 then Ok (opcodenum :: buf)
          else if opcodenum =? OP_PUSHDATA1 then
            Ok (opcodenum :: chunk_len c mod 256 :: buf)
          else if opcodenum =? OP_PUSHDATA2 then
            Ok (opcodenum :: writeUInt16LE (chunk_len c) ++ buf)
          else if opcodenum =? OP_PUSHDATA4 then
            Ok (opcodenum :: writeUInt32LE (chunk_len c) ++ buf)
          else Ok [opcodenum]
      end
  end.

(** [Script#toHex()] *)
Fixpoint Script_toHex (s : list Chunk) : result hex :=
  match s with
  | [] => Ok []
  | c :: s' =>
      h ← Chunk_toBuffer c;
      t ← Script_toHex s';
      Ok (h ++ t)
  end.

(** The chunk of an OP_PUSHDATA1, 2 or 4.  The build of bsv that the
    package runs on reads the length and the data inside a [try]: when
    the buffer ends before the length, the rest of the buffer is dropped
    and the chunk is pushed with an empty buffer and the length 0. *)
Definition readPushData (readLen : Reader Z) (opcodenum : Z) : Reader Chunk :=
  fun br =>
    match readLen br with
    | Ok (len, br') =>
        (let* buf := read len in
         ret_reader (mkChunk (Some buf) len (Some opcodenum)))%reader br'
    | Err _ => Ok (mkChunk (Some []) 0 (Some opcodenum), [])
    end.

(** One iteration of the loop of [Script.fromBuffer]. *)
Definition readChunk : Reader Chunk :=
  (let* opcodenum := readUInt8 in
   if (0 <? opcodenum) && (opcodenum <? OP_PUSHDATA1) then
     let* buf := read opcodenum in
     ret_reader (mkChunk (Some buf) opcodenum (Some opcodenum))
   else if opcodenum =? OP_PUSHDATA1 then
     readPushData readUInt8 opcodenum
   else if opcodenum =? OP_PUSHDATA2 then
     readPushData readUInt16LE opcodenum
   else if opcodenum =? OP_PUSHDATA4 then
     readPushData readUInt32LE opcodenum
   else
     ret_reader (mkChunk None 0 (Some opcodenum)))%reader.

(** [Script.fromBuffer]: chunks are read while [!br.finished()]; every
    iteration consumes a byte, so the length of the buffer is fuel enough.
    The opcode is read from a reader that is not finished, the data of a
    push is a slice and a missing length is caught, so nothing is thrown
    for any buffer. *)
Fixpoint fromBuffer_loop (fuel : nat) (br : hex) : result (list Chunk) :=
  match fuel, br with
  | _, [] => Ok []
  | O, _ :: _ => Ok []
  | S fuel', _ :: _ =>
      '(c, br') ← readChunk br;
      cs ← fromBuffer_loop fuel' br';
      Ok (c :: cs)
  end.

Definition Script_fromHex (h : hex) : result (list Chunk) :=
  fromBuffer_loop (length h) h.

(** [s.chunks[0].buf.toString('hex')]: a TypeError when the script has no
    chunk, or when its first chunk is a bare opcode without a buffer. *)
Definition chunk0_buf (s : list Chunk) : result hex :=
  match s with
  | c :: _ =>
      match chunk_buf c with
      | Some buf => Ok buf
      | None => Err TypeError
      end
  | [] => Err TypeError
  end.

(** ** Helpers of the repository that [Stateful] imports from utils.ts *)

(** Modelled from the spec: [bin2num] of utils.ts, whose source is
    missing.  It is the inverse of the Integer wire rule of section 4.3:
    the bytes are a little-endian magnitude whose sign is the top bit of
    the last byte.  The last byte is split off, its low seven bits are put
    back, and the number is negated when the top bit was set; the empty
    string is 0. *)
Definition bin2num (h : hex) : Z :=
  let lastByte := substr h (Z.of_nat (length h) - 1) 1 in
  let rest := take (length h - 1) h in
  let m := match lastByte with b :: _ => b | [] => 0 end in
  let n := Z.land m 127 in
  let bn := BN_fromLE (rest ++ [n]) in
  if Z.shiftr m 7 =? 0 then bn else - bn.

(** Modelled from the spec: [num2bin] of utils.ts, whose source is
    missing.  It writes [n] in the Integer wire rule of section 4.3 and
    pads it to the fixed width [dataLen] (sections 3 and 4.4: 4 bytes for
    bodyLength, 1 byte for the version), the sign bit going to the last
    byte; a number whose sign-and-magnitude form is longer than [dataLen]
    is an error.  Below 2^(8 * dataLen - 1) the result is the plain
    little-endian form of that width. *)
Definition num2bin (n : Z) (dataLen : nat) : result hex :=
  if n =? 0 then Ok (zeros dataLen)
  else
    let s := BN_toSM_little n in
    let byteLen_ := length s in
    if (dataLen <? byteLen_)%nat then Err (Error_cannot_fit n dataLen)
    else if (byteLen_ =? dataLen)%nat then Ok s
    else
      let paddingLen := (dataLen - byteLen_)%nat in
      let rest := take (byteLen_ - 1) s in
      let m0 := match drop (byteLen_ - 1) s with b :: _ => b | [] => 0 end in
      let m := if n <? 0 then Z.land m0 127 else m0 in
      let padding :=
        if 0 <? n then zeros paddingLen
        else zeros (paddingLen - 1) ++ [128] in
      Ok (rest ++ [m] ++ padding).

(** Modelled from the spec: [readBytes] of utils.ts, whose source is
    missing.  It reads one push-data element as section 6 frames it: an
    opcode of 0 to 75 is the payload length itself, OP_PUSHDATA1/2/4 are
    followed by a 1, 2 or 4 byte little-endian length.  Any other opcode
    stands for the small number [opcodenum - 80] (OP_1 .. OP_16), written
    on one byte.  Whatever is thrown inside is rethrown as
    'readBytes: ...'. *)
Definition readBytes : Reader hex := fun br =>
  let body : Reader hex :=
    (let* opcodenum := readUInt8 in
     if opcodenum =? 0 then ret_reader []
     else if (0 <? opcodenum) && (opcodenum <? OP_PUSHDATA1) then
       read opcodenum
     else if opcodenum =? OP_PUSHDATA1 then
       let* len := readUInt8 in read len
     else if opcodenum =? OP_PUSHDATA2 then
       let* len := readUInt16LE in read len
     else if opcodenum =? OP_PUSHDATA4 then
       let* len := readUInt32LE in read len
     else
       match num2bin (opcodenum - 80) 1 with
       | Ok data => ret_reader data
       | Err e => throw_reader e
       end)%reader in
  match body br with
  | Ok r => Ok r
  | Err e => Err (Error_readBytes e)
  end.

(** ** Types and values (scryptTypes.ts) *)

(** Modelled from the spec: the enum [ScryptType] of scryptTypes.ts, whose
    source is missing.  Its members are the twelve primitive kinds of
    section 3; a member is the string that names the type in sCrypt. *)
Module ScryptType.
Definition BOOL : string := "bool".
Definition INT : string := "int".
Definition BYTES : string := "bytes".
Definition PUBKEY : string := "PubKey".
Definition PRIVKEY : string := "PrivKey".
Definition SIG : string := "Sig".
Definition RIPEMD160 : string := "Ripemd160".
Definition SHA1 : string := "Sha1".
Definition SHA256 : string := "Sha256".
Definition SIGHASHTYPE : string := "SigHashType".
Definition SIGHASHPREIMAGE : string := "SigHashPreimage".
Definition OPCODETYPE : string := "OpCodeType".

Definition all : list string :=
  [BOOL; INT; BYTES; PRIVKEY; PUBKEY; SIG; RIPEMD160; SHA1; SHA256;
   SIGHASHTYPE; SIGHASHPREIMAGE; OPCODETYPE].
End ScryptType.

(** What [parseLiteral] returns as the value of a literal: a bigint or the
    hex digits of a byte string. *)
Inductive LiteralValue : Type :=
  | LitInt (n : Z)
  | LitBytes (b : hex).

(** A string value is an sCrypt literal, such as [b'00ff'], [PrivKey(11)]
    or [PubKey(b'02..')].  The embedding keeps of the string what
    [parseLiteral] reads in it. *)
Record Literal : Type := mkLiteral {
  lit_value : LiteralValue;
  lit_type : string
}.

(** A runtime value, by its [typeof]. *)
#[local] Unset Elimination Schemes.
Inductive SupportedParamType : Type :=
  | JsBigInt (n : Z)                                    (* 'bigint' *)
  | JsBoolean (b : bool)                                (* 'boolean' *)
  | JsString (l : Literal)                              (* 'string' *)
  | JsNumber (n : Z)                                    (* 'number' *)
  | JsUndefined                                         (* 'undefined' *)
  | JsArray (xs : list SupportedParamType)              (* 'object' *)
  | JsStruct (fields : list (string * SupportedParamType)).  (* 'object' *)
#[local] Set Elimination Schemes.

(** [typeof x] *)
Definition typeof (x : SupportedParamType) : string :=
  match x with
  | JsBigInt _ => "bigint"
  | JsBoolean _ => "boolean"
  | JsString _ => "string"
  | JsNumber _ => "number"
  | JsUndefined => "undefined"
  | JsArray _ | JsStruct _ => "object"
  end.

(** Modelled from the spec: [parseLiteral] of internal.ts, whose source is
    missing.  It returns the value and the type of a literal. *)
Definition parseLiteral (x : Literal) : LiteralValue * string :=
  (lit_value x, lit_type x).

(** The casts [value as bigint] and [value as Bytes].  TypeScript does not
    check them; the embedding stops with a TypeError where the value is of
    the other sort, which no literal built below reaches. *)
Definition as_bigint (v : LiteralValue) : result Z :=
  match v with LitInt n => Ok n | LitBytes _ => Err TypeError end.
Definition as_Bytes (v : LiteralValue) : result hex :=
  match v with LitBytes b => Ok b | LitInt _ => Err TypeError end.

(** Modelled from the spec: the constructor functions of scryptTypes.ts,
    whose source is missing.  [Bool] and [Int] are the boolean and the
    bigint themselves; a value of another kind is the string literal of
    that kind, a PrivKey around a bigint, a SigHashType around its one
    byte, the others around their bytes.  A SigHashType is a small
    unsigned integer (section 3) and its constructor checks it: the
    signature hash types are ALL, NONE and SINGLE with the fork id, alone
    or with ANYONECANPAY, and any other number is refused. *)
Definition Bool (b : bool) : SupportedParamType := JsBoolean b.
Definition Int (n : Z) : SupportedParamType := JsBigInt n.
Definition Bytes (b : hex) : SupportedParamType :=
  JsString (mkLiteral (LitBytes b) ScryptType.BYTES).
Definition PrivKey (n : Z) : SupportedParamType :=
  JsString (mkLiteral (LitInt n) ScryptType.PRIVKEY).
Definition PubKey (b : hex) : SupportedParamType :=
  JsString (mkLiteral (LitBytes b) ScryptType.PUBKEY).
Definition Sig (b : hex) : SupportedParamType :=
  JsString (mkLiteral (LitBytes b) ScryptType.SIG).
Definition Ripemd160 (b : hex) : SupportedParamType :=
  JsString (mkLiteral (LitBytes b) ScryptType.RIPEMD160).
Definition Sha1 (b : hex) : SupportedParamType :=
  JsString (mkLiteral (LitBytes b) ScryptType.SHA1).
Definition Sha256 (b : hex) : SupportedParamType :=
  JsString (mkLiteral (LitBytes b) ScryptType.SHA256).
Definition SigHashLiteral (s : Z) : SupportedParamType :=
  JsString (mkLiteral (LitBytes [s]) ScryptType.SIGHASHTYPE).
Definition SignatureHashType : list Z := [65; 66; 67; 193; 194; 195].
Definition SigHashType (s : Z) : result SupportedParamType :=
  if bool_decide (s ∈ SignatureHashType) then Ok (SigHashLiteral s)
  else Err (Error_unsupported_SigHashType s).
Definition SigHashPreimage (b : hex) : SupportedParamType :=
  JsString (mkLiteral (LitBytes b) ScryptType.SIGHASHPREIMAGE).
Definition OpCodeType (b : hex) : SupportedParamType :=
  JsString (mkLiteral (LitBytes b) ScryptType.OPCODETYPE).

(** [Number(x)] of a bigint, exact below 2^53. *)
Definition Number (x : Z) : Z := x.

(** [ParamEntity] and [Argument]: a declared name and type, and a value. *)
Record ParamEntity : Type := mkParam {
  param_name : string;
  param_type : string
}.

Record Argument : Type := mkArg {
  arg_name : string;
  arg_type : string;
  arg_value : SupportedParamType
}.
Abbreviation Arguments := (list Argument).

(** [Object.assign({}, p, { value: v })] *)
Definition with_value (p : ParamEntity) (v : SupportedParamType) : Argument :=
  mkArg (param_name p) (param_type p) v.

Record FlattenOptions : Type := mkOptions {
  opt_state : bool;
  opt_ignoreValue : bool
}.

(** [`<${name}>`], the key of a leaf in a template map. *)
Definition template_key (name : string) : string := "<" +:+ name +:+ ">".

(** ** The class [Stateful] *)

Module Stateful.

(** state version *)
Definition CURRENT_STATE_VERSION : Z := 0.

(** lines 11-21.  [num.eqn(0)] guards the empty form of zero. *)
Definition int2hex (n : Z) : result hex :=
  let asm := if n =? 0 then [0] else BN_toSM_little n in
  Script_toHex (Script_fromASM asm).

(** lines 23-27 *)
Definition hex2int (h : hex) : result Z :=
  s ← Script_fromHex h;
  buf ← chunk0_buf s;
  Ok (bin2num buf).

(** lines 31-36 *)
Definition bool2hex (b : bool) : hex :=
  if b then [1] else [0].

(** lines 38-45 *)
Definition hex2bool (h : hex) : result bool :=
  if bool_decide (h = [1]) then Ok true
  else if bool_decide (h = [0]) then Ok false
  else Err (Error_invalid_hex h).

(** lines 47-52 *)
Definition bytes2hex (b : hex) : result hex :=
  if bool_decide (b = []) then Ok [0]
  else Script_toHex (Script_fromASM b).

(** lines 54-61 *)
Definition hex2bytes (h : hex) : result hex :=
  if bool_decide (h = [0]) then Ok []
  else
    s ← Script_fromHex h;
    chunk0_buf s.

(** lines 63-80: by [typeof], and for a string by the type of the
    literal; anything else is the byte 00. *)
Definition toHex (x : SupportedParamType) : result hex :=
  match x with
  | JsBigInt n => int2hex n
  | JsBoolean b => Ok (bool2hex b)
  | JsString l =>
      let '(value, type) := parseLiteral l in
      if String.eqb type ScryptType.PRIVKEY then
        n ← as_bigint value; int2hex n
      else
        b ← as_Bytes value; bytes2hex b
  | _ => Ok [0]
  end.

(** lines 82-107 *)
Definition serialize (x : SupportedParamType) : result hex :=
  match x with
  | JsBigInt n => Ok (if n =? 0 then [] else BN_toSM_little n)
  | JsBoolean b => Ok (if b then [1] else [])
  | JsString l =>
      let '(value, type) := parseLiteral l in
      if String.eqb type ScryptType.PRIVKEY then
        n ← as_bigint value; int2hex n
      else
        as_Bytes value
  | _ => Ok []
  end.

(** lines 184-215: the [switch] over the type name. *)
Definition deserializer (type : string) (h : hex) : result SupportedParamType :=
  if String.eqb type ScryptType.BOOL then Bool <$> hex2bool h
  else if String.eqb type ScryptType.INT then Int <$> hex2int h
  else if String.eqb type ScryptType.BYTES then Bytes <$> hex2bytes h
  else if String.eqb type ScryptType.PRIVKEY then PrivKey <$> hex2int h
  else if String.eqb type ScryptType.PUBKEY then PubKey <$> hex2bytes h
  else if String.eqb type ScryptType.SIG then Sig <$> hex2bytes h
  else if String.eqb type ScryptType.RIPEMD160 then Ripemd160 <$> hex2bytes h
  else if String.eqb type ScryptType.SHA1 then Sha1 <$> hex2bytes h
  else if String.eqb type ScryptType.SHA256 then Sha256 <$> hex2bytes h
  else if String.eqb type ScryptType.SIGHASHTYPE then
    n ← hex2int h; SigHashType (Number n)
  else if String.eqb type ScryptType.SIGHASHPREIMAGE then
    SigHashPreimage <$> hex2bytes h
  else if String.eqb type ScryptType.OPCODETYPE then OpCodeType <$> hex2bytes h
  else Err (Error_cannot_cast type).

Section WithInternal.

(** The type resolver of a contract, and the two functions of
    internal.ts and deserializer.ts that flatten an argument into its
    leaves and rebuild one from a template map.  Their sources are
    missing; [Stateful] is embedded for any such functions.  [Stateful]
    always calls [deserializeArgfromHex] with [{ state: true }], which
    the embedding fixes. *)
Context {TypeResolver : Type}.
Variable flatternArg :
  Argument -> TypeResolver -> FlattenOptions -> result Arguments.
Variable deserializeArgfromHex :
  TypeResolver -> Argument -> gmap string hex -> result Argument.

Record AbstractContract : Type := mkContract {
  stateProps : list ParamEntity;
  resolver : TypeResolver
}.

(** [xs.map(f).flat(Infinity)] for an [f] that returns leaves. *)
Definition flatMap {A} (f : A -> result Arguments) (xs : list A)
  : result Arguments :=
  (fun leaves => concat leaves) <$> mapM f xs.

(** The body of a state: the isGenesis byte, then every leaf. *)
Definition state_body (args_ : Arguments) (isGenesis : bool) : result hex :=
  g ← toHex (JsBoolean isGenesis);
  hs ← mapM (fun a => toHex (arg_value a)) args_;
  Ok (g ++ concat hs).

(** lines 117-141.  [if (state_hex)] tests that the string is not empty. *)
Definition buildState (args : Arguments) (isGenesis : bool)
    (resolver : TypeResolver) : result hex :=
  args_ ← flatMap (fun arg =>
             flatternArg arg resolver (mkOptions true false)) args;
  if (length args_ <=? 0)%nat then Err Error_no_state_property
  else
    (* append isGenesis which is a hidden built-in state *)
    state_hex ← state_body args_ isGenesis;
    (* append meta *)
    match state_hex with
    | _ :: _ =>
        let state_len := Z.of_nat (length state_hex) in
        len ← num2bin state_len 4;
        ver ← num2bin CURRENT_STATE_VERSION 1;
        Ok (state_hex ++ len ++ ver)
    | [] => Ok state_hex
    end.

(** The placeholder that [buildDefaultStateArgs] stores for a leaf. *)
Definition defaultHex (p : Argument) : result hex :=
  let type := arg_type p in
  if String.eqb type ScryptType.INT || String.eqb type ScryptType.PRIVKEY
  then int2hex 0
  else if String.eqb type ScryptType.BOOL then Ok (bool2hex true)
  else if String.eqb type ScryptType.BYTES
       || String.eqb type ScryptType.PUBKEY
       || String.eqb type ScryptType.SIG
       || String.eqb type ScryptType.RIPEMD160
       || String.eqb type ScryptType.SHA1
       || String.eqb type ScryptType.SHA256
       || String.eqb type ScryptType.SIGHASHTYPE
       || String.eqb type ScryptType.SIGHASHPREIMAGE
       || String.eqb type ScryptType.OPCODETYPE
  then bytes2hex [0]
  else Err (Error_unknown_type (arg_name p) type).

(** lines 145-180 *)
Definition buildDefaultStateArgs (contract : AbstractContract)
  : result Arguments :=
  dummyArgs ← flatMap (fun p =>
                 flatternArg (with_value p (JsBoolean false))
                   (resolver contract) (mkOptions true true))
               (stateProps contract);
  hexTemplateMap ←
    foldl (fun acc p =>
             m ← acc;
             h ← defaultHex p;
             Ok (<[template_key (arg_name p) := h]> m))
          (Ok ∅) dummyArgs;
  mapM (fun param =>
          deserializeArgfromHex (resolver contract)
            (with_value param JsUndefined) hexTemplateMap)
       (stateProps contract).

(** One step of the [forEach] of [parseStateHex] (lines 241-249): the
    bytes of one leaf are read and stored in the template map under its
    name; [data ? ... : ''] stores the empty string for an empty push. *)
Definition readLeaf (param : Argument) (m : gmap string hex)
  : Reader (gmap string hex) :=
  (if String.eqb (arg_type param) ScryptType.BOOL then
     let* opcodenum := readUInt8 in
     ret_reader (<[template_key (arg_name param) :=
                     if opcodenum =? 1 then [1] else [0]]> m)
   else
     let* data := readBytes in
     match data with
     | _ :: _ =>
         match Script_toHex (Script_fromASM data) with
         | Ok h => ret_reader (<[template_key (arg_name param) := h]> m)
         | Err e => throw_reader e
         end
     | [] => ret_reader (<[template_key (arg_name param) := []]> m)
     end)%reader.

Fixpoint readLeaves (dummyArgs : Arguments) (m : gmap string hex)
  : Reader (gmap string hex) :=
  match dummyArgs with
  | [] => ret_reader m
  | param :: rest =>
      (let* m' := readLeaf param m in readLeaves rest m')%reader
  end.

(** [parseStateHex] (lines 218-254), in its two halves.  Lines 220-225
    locate the state in the script from the five bytes of the trailer;
    [version] is computed and not used. *)
Definition stateLenOf (scriptHex : hex) : Z :=
  let size := Z.of_nat (length scriptHex) in
  let metaScript := substr scriptHex (size - 5) 5 in
  let version :=
    Number (bin2num (substr metaScript (Z.of_nat (length metaScript) - 1) 1)) in
  Number (bin2num (substr metaScript 0 4)).

Definition stateHexOf (scriptHex : hex) : hex :=
  let size := Z.of_nat (length scriptHex) in
  let stateLen := stateLenOf scriptHex in
  substr scriptHex (size - 5 - stateLen) stateLen.

(** Lines 227-253 walk a [BufferReader] over these bytes. *)
Definition readState (contract : AbstractContract) (stateHex : hex)
  : result (bool * Arguments) :=
  '(opcodenum, br) ← readUInt8 stateHex;
  let isGenesis := opcodenum =? 1 in
  dummyArgs ← flatMap (fun p =>
                 flatternArg (with_value p (JsBoolean false))
                   (resolver contract) (mkOptions true true))
               (stateProps contract);
  '(stateTemplateArgs, _) ← readLeaves dummyArgs ∅ br;
  args ← mapM (fun param =>
            deserializeArgfromHex (resolver contract)
              (with_value param (JsBoolean false)) stateTemplateArgs)
          (stateProps contract);
  Ok (isGenesis, args).

Definition parseStateHex (contract : AbstractContract) (scriptHex : hex)
  : result (bool * Arguments) :=
  readState contract (stateHexOf scriptHex).

End WithInternal.

Arguments AbstractContract : clear implicits.
Arguments mkContract {TypeResolver} stateProps resolver.

End Stateful.

(** ** Flattening and rebuilding for primitive declarations *)

(** A resolver gives the final type of a declared type name. *)
Abbreviation LeafResolver := (string -> string).

(** Modelled from the spec: [flatternArg] of internal.ts, whose source is
    missing.  Section 4.2: an argument whose type resolves to a primitive
    kind flattens to itself, a one-element sequence with the same name
    path.  This instance is for declarations of primitive kinds only:
    structs and arrays, which section 4.2 flattens into their members, are
    left out of it, and what is proved with it is stated for properties
    of primitive kinds. *)
Definition flatternArg (arg : Argument) (resolver : LeafResolver)
    (options : FlattenOptions) : result Arguments :=
  Ok [ mkArg (arg_name arg) (resolver (arg_type arg)) (arg_value arg) ].

(** Modelled from the spec: [deserializeArgfromHex] of deserializer.ts,
    whose source is missing.  Section 4.5: the leaves of the argument are
    taken from the template with values ignored, each leaf is looked up in
    the map under its name and decoded by the leaf codec, and the argument
    is put back together, which for a primitive is the decoded leaf.
    As [flatternArg] above, this instance is for properties of primitive
    kinds. *)
Definition deserializeArgfromHex (resolver : LeafResolver) (arg : Argument)
    (hexTemplateMap : gmap string hex) : result Argument :=
  leaves ← flatternArg arg resolver (mkOptions true true);
  decoded ← mapM (fun p =>
                match hexTemplateMap !! template_key (arg_name p) with
                | Some h =>
                    v ← Stateful.deserializer (arg_type p) h;
                    Ok (mkArg (arg_name p) (arg_type p) v)
                | None => Err (Error_missing_template (arg_name p))
                end) leaves;
  match decoded with
  | [leaf] => Ok leaf
  | _ => Err TypeError
  end.

(** [Stateful] over these two functions. *)
Definition buildState :=
  Stateful.buildState (TypeResolver := LeafResolver) flatternArg.
Definition parseStateHex :=
  Stateful.parseStateHex (TypeResolver := LeafResolver)
    flatternArg deserializeArgfromHex.

(** ** The legacy serializer (serializer.ts) *)

Module Serializer.

(** number of bytes to denote state length after serialization,
    exclusing varint prefix *)
Definition STATE_LEN : nat := 2.

(** [boolean | number | string], the values of a [State]; a number is one
    that holds an integer. *)
Inductive StateValue : Type :=
  | SBool (flag : bool)
  | SNumber (n : Z)
  | SString (hexStr : hex).

(** [Record<string, boolean | number | string>]: the properties in the
    order in which [Object.values] lists them. *)
Abbreviation State := (list (string * StateValue)).

Definition serializeBool (flag : bool) : hex :=
  if flag then [1] else [0].

(** [BN.fromNumber(n)]: bn.js takes a number below 2^53 in magnitude, and
    asserts it. *)
Definition BN_fromNumber (n : Z) : result Z :=
  if Z.abs n <? 2 ^ 53 then Ok n else Err Error_assertion_failed.

Definition serializeInt (n : Z) : result hex :=
  (* special case: otherwise it returns empty string *)
  if n =? 0 then Ok [0]
  else
    num ← BN_fromNumber n;
    Ok (BN_toSM_little num).

Definition serializeBytes (hexStr : hex) : hex := hexStr.

Definition serialize (x : StateValue) : result hex :=
  match x with
  | SBool b => Ok (serializeBool b)
  | SNumber n => serializeInt n
  | SString s => Ok (serializeBytes s)
  end.

(** The loop of [serializeState]: the pair of [asms] and [stateLen]. *)
Definition serializeLoop (values : list StateValue) : result (list hex * Z) :=
  foldl (fun acc s =>
           '(asms, stateLen) ← acc;
           asm ← serialize s;
           Ok (asms ++ [asm], stateLen + (1 + Z.of_nat (length asm))))
        (Ok ([], 0)) values.

(** serialize contract state into Script ASM.  The result
    [asms.join(' ')] is kept as its list of tokens. *)
Definition serializeState (state : State) : result (list hex) :=
  '(asms, stateLen) ← serializeLoop (state.*2);
  (* use fixed size (2 bytes) to denote state len *)
  len ← num2bin stateLen STATE_LEN;
  Ok (asms ++ [len]).

End Serializer.

(** ** The ABI of a compiled contract *)

(** [s.replace(searchValue, replaceValue)] for a pattern that is a string:
    the first occurrence is replaced, and a string without one is returned
    as it is. *)
Fixpoint String_replace (searchValue replaceValue s : string) : string :=
  if String.prefix searchValue s
  then replaceValue
       +:+ String.substring (String.length searchValue)
             (String.length s - String.length searchValue) s
  else match s with
       | EmptyString => EmptyString
       | String c s' => String c (String_replace searchValue replaceValue s')
       end.

Module Compiler.

Module ABIEntityType.
Definition FUNCTION : string := "function".
Definition CONSTRUCTOR : string := "constructor".
End ABIEntityType.

(** [index] and [name] are optional: a constructor has neither. *)
Record ABIEntity : Type := mkABIEntity {
  abi_type : string;
  abi_name : option string;
  abi_params : list ParamEntity;
  abi_index : option nat
}.

Record ABI : Type := mkABI {
  abi_contract : string;
  abi_abi : list ABIEntity
}.

(** The nodes of the AST that the functions below read, with the keys that
    they read.  The AST is the JSON that the compiler prints, parsed into
    plain objects.  A name that is absent is the empty string, which
    [name || ''] does not tell from it; properties that are absent or
    null, which [if (node['properties'])] does not tell apart, are [None].
    The key 'constructor' is another matter, for a plain object inherits
    a property of that name: when the key is absent, [node['constructor']]
    is the function [Object], which is truthy and has no 'params'. *)
Record ConstructorNode : Type := mkConstructorNode {
  ctor_params : list ParamEntity
}.

Inductive ConstructorKey : Type :=
  | KeyAbsent                          (* no key: the inherited [Object] *)
  | KeyNull                            (* null, or another falsy value *)
  | KeyNode (ctor : ConstructorNode).

Record FunctionNode : Type := mkFunctionNode {
  fn_name : string;
  fn_nodeType : string;
  fn_visibility : string;
  fn_params : list ParamEntity
}.

Record ContractNode : Type := mkContractNode {
  cn_name : string;
  cn_constructor : ConstructorKey;
  cn_properties : option (list ParamEntity);
  cn_functions : list FunctionNode
}.

Record ASTRoot : Type := mkASTRoot {
  ast_contracts : list ContractNode
}.

(** [p => { return { name: p['name'], type: p['type'] }; }] *)
Definition copyParam (p : ParamEntity) : ParamEntity :=
  mkParam (param_name p) (param_type p).

(** The result is [undefined] for a contract that has a falsy constructor
    and no properties.  With the key 'constructor' absent the first branch
    is taken on the inherited [Object], whose 'params' are undefined, and
    [undefined.map] is a TypeError. *)
Definition getConstructorDeclaration (mainContract : ContractNode)
  : result (option ABIEntity) :=
  match cn_constructor mainContract with
  | KeyNode ctor =>
      (* explict constructor *)
      Ok (Some (mkABIEntity ABIEntityType.CONSTRUCTOR None
                  (copyParam <$> ctor_params ctor) None))
  | KeyAbsent => Err TypeError
  | KeyNull =>
      (* implicit constructor *)
      match cn_properties mainContract with
      | Some properties =>
          Ok (Some (mkABIEntity ABIEntityType.CONSTRUCTOR None
                      ((fun p =>
                          mkParam (String_replace "this." "" (param_name p))
                            (param_type p)) <$> properties)
                      None))
      | None => Ok None
      end
  end.

(** The [map] of [getPublicFunctionDeclaration]: [pubIndex] is the counter
    that [pubIndex++] reads and steps. *)
Fixpoint publicEntities (pubIndex : nat) (fs : list FunctionNode)
  : list ABIEntity :=
  match fs with
  | [] => []
  | f :: fs' =>
      if String.eqb (fn_nodeType f) "Constructor" then
        mkABIEntity ABIEntityType.FUNCTION (Some (fn_name f))
          (copyParam <$> fn_params f) None
        :: publicEntities pubIndex fs'
      else
        mkABIEntity ABIEntityType.FUNCTION (Some (fn_name f))
          (copyParam <$> fn_params f) (Some pubIndex)
        :: publicEntities (S pubIndex) fs'
  end.

(** [f => f['visibility'] === 'Public'] *)
Definition isPublic (f : FunctionNode) : bool :=
  String.eqb (fn_visibility f) "Public".

Definition getPublicFunctionDeclaration (mainContract : ContractNode)
  : list ABIEntity :=
  let pubIndex := 0%nat in
  publicEntities pubIndex
    (filter (fun f => isPublic f = true) (cn_functions mainContract)).

(** The main contract is the last one of the AST. *)
Definition getContractName (astRoot : ASTRoot) : string :=
  match last (ast_contracts astRoot) with
  | None => ""
  | Some mainContract => cn_name mainContract
  end.

(** [typeResolver(param.type).finalType] is embedded as one function from
    a type name to its final type.  The [forEach] reads [abi.params] of
    every element of [interfaces], the constructor included, which is a
    TypeError when [getConstructorDeclaration] returned [undefined]. *)
Definition getABIDeclaration (astRoot : ASTRoot)
    (typeResolver : string -> string) : result ABI :=
  match last (ast_contracts astRoot) with
  | None => Ok (mkABI "" [])
  | Some mainContract =>
      let interfaces := getPublicFunctionDeclaration mainContract in
      constructorABI ← getConstructorDeclaration mainContract;
      interfaces ←
        mapM (fun abi : option ABIEntity =>
                match abi with
                | Some abi =>
                    Ok (mkABIEntity (abi_type abi) (abi_name abi)
                          ((fun param =>
                              mkParam (param_name param)
                                (typeResolver (param_type param)))
                             <$> abi_params abi)
                          (abi_index abi))
                | None => Err TypeError
                end)
             ((Some <$> interfaces) ++ [constructorABI]);
      Ok (mkABI (getContractName astRoot) interfaces)
  end.

End Compiler.

(** ** Vocabulary of the properties *)

(** The kinds that are carried as byte strings. *)
Definition byteKinds : list string :=
  [ScryptType.BYTES; ScryptType.PUBKEY; ScryptType.SIG; ScryptType.RIPEMD160;
   ScryptType.SHA1; ScryptType.SHA256; ScryptType.SIGHASHPREIMAGE;
   ScryptType.OPCODETYPE].

(** The values of a kind that the parser gives back as the builder got
    them: every boolean, Integer and PrivKey, and every byte string but
    the empty one. *)
Inductive Recoverable : string -> SupportedParamType -> Prop :=
  | rec_bool b : Recoverable ScryptType.BOOL (Bool b)
  | rec_int n : Recoverable ScryptType.INT (Int n)
  | rec_privkey n : Recoverable ScryptType.PRIVKEY (PrivKey n)
  | rec_bytes kind b :
      kind ∈ byteKinds -> b <> [] ->
      Recoverable kind (JsString (mkLiteral (LitBytes b) kind)).

(** The walk reads the bytes [wire] for the leaf [param] and stores
    [stored] under its name, whatever comes after and before. *)
Definition readsAs (param : Argument) (wire stored : hex) : Prop :=
  forall m rest,
    Stateful.readLeaf param m (wire ++ rest)
    = Ok (<[template_key (arg_name param) := stored]> m, rest).

(** The template map after the walk over [leaves]. *)
Fixpoint storeAll (leaves : Arguments) (stored : list hex)
    (m : gmap string hex) : gmap string hex :=
  match leaves, stored with
  | p :: leaves', h :: stored' =>
      storeAll leaves' stored' (<[template_key (arg_name p) := h]> m)
  | _, _ => m
  end.

(** The template leaf of a declared property. *)
Definition dummyLeaf (resolver : LeafResolver) (p : ParamEntity) : Argument :=
  mkArg (param_name p) (resolver (param_type p)) (JsBoolean false).

(** The contract of section 8 of the specification, a counter and a flag,
    and its state [counter = 5, done = true]. *)
Definition counterContract : Stateful.AbstractContract LeafResolver :=
  Stateful.mkContract
    [mkParam "counter" ScryptType.INT; mkParam "done" ScryptType.BOOL]
    (fun type => type).

Definition counterState : Arguments :=
  [mkArg "counter" ScryptType.INT (Int 5);
   mkArg "done" ScryptType.BOOL (Bool true)].

(** [Stateful.buildDefaultStateArgs] over the two functions for primitive
    declarations. *)
Definition buildDefaultStateArgs :=
  Stateful.buildDefaultStateArgs (TypeResolver := LeafResolver)
    flatternArg deserializeArgfromHex.

(** The values of a kind that the leaf codec decodes to themselves: the
    recoverable ones, and the empty byte string. *)
Inductive Decodable : string -> SupportedParamType -> Prop :=
  | dec_recoverable type x : Recoverable type x -> Decodable type x
  | dec_empty kind :
      kind ∈ byteKinds ->
      Decodable kind (JsString (mkLiteral (LitBytes []) kind)).

(** The primitive kinds but SigHashType. *)
Definition plainKinds : list string :=
  [ScryptType.BOOL; ScryptType.INT; ScryptType.PRIVKEY] ++ byteKinds.

(** The default value of such a kind: 0 for an Integer and a PrivKey, true
    for a Boolean, the one byte 00 for the kinds that are byte strings. *)
Definition defaultValue (type : string) : SupportedParamType :=
  if String.eqb type ScryptType.INT then Int 0
  else if String.eqb type ScryptType.PRIVKEY then PrivKey 0
  else if String.eqb type ScryptType.BOOL then Bool true
  else JsString (mkLiteral (LitBytes [0]) type).

Definition defaultArg (p : ParamEntity) : Argument :=
  mkArg (param_name p) (param_type p) (defaultValue (param_type p)).

(** The declaration of an argument. *)
Definition paramOf (a : Argument) : ParamEntity :=
  mkParam (arg_name a) (arg_type a).

(** One push-data element for a token of hex digits. *)
Definition push (data : hex) : result hex :=
  Script_toHex (Script_fromASM data).

(** A function of the AST that is no constructor node. *)
Definition notConstructor (f : Compiler.FunctionNode) : bool :=
  negb (String.eqb (Compiler.fn_nodeType f) "Constructor").

(** An entity of an ABI with the types of its parameters resolved. *)
Definition resolveEntity (typeResolver : string -> string)
    (abi : Compiler.ABIEntity) : Compiler.ABIEntity :=
  Compiler.mkABIEntity (Compiler.abi_type abi) (Compiler.abi_name abi)
    ((fun param => mkParam (param_name param) (typeResolver (param_type param)))
       <$> Compiler.abi_params abi)
    (Compiler.abi_index abi).

(** A contract with two public functions and a private one, and its AST. *)
Definition demoContract : Compiler.ContractNode :=
  Compiler.mkContractNode "Demo" Compiler.KeyNull
    (Some [mkParam "this.x" "int"; mkParam "this.y" "Amount"])
    [Compiler.mkFunctionNode "add" "Function" "Public" [mkParam "a" "Amount"];
     Compiler.mkFunctionNode "helper" "Function" "Private" [];
     Compiler.mkFunctionNode "sub" "Function" "Public" [mkParam "b" "int"]].

Definition demoResolver : string -> string :=
  fun type => if String.eqb type "Amount" then "int" else type.

Definition demoABI : Compiler.ABI :=
  Compiler.mkABI "Demo"
    [Compiler.mkABIEntity "function" (Some "add") [mkParam "a" "int"] (Some 0%nat);
     Compiler.mkABIEntity "function" (Some "sub") [mkParam "b" "int"] (Some 1%nat);
     Compiler.mkABIEntity "constructor" None
       [mkParam "x" "int"; mkParam "y" "int"] None].

(** The values of a state that [serialize] takes: a number is below 2^53
    in magnitude. *)
Definition safeValue (v : Serializer.StateValue) : Prop :=
  match v with
  | Serializer.SNumber n => Z.abs n < 2 ^ 53
  | _ => True
  end.

(** A state of three values. *)
Definition demoState : Serializer.State :=
  [("counter", Serializer.SNumber 5); ("done", Serializer.SBool true);
   ("owner", Serializer.SString [170; 187; 204])].

(** * Properties *)

(** Comparisons of integers that [lia] settles, and comparisons of opcode
    constants that evaluate. *)
Ltac settle_cmp :=
  repeat match goal with
    | |- context [?a <? ?b] =>
        first [ replace (a <? b) with true by (symmetry; apply Z.ltb_lt; lia)
              | replace (a <? b) with false by (symmetry; apply Z.ltb_ge; lia) ]
    | |- context [?a =? ?b] =>
        first [ replace (a =? b) with false by (symmetry; apply Z.eqb_neq; lia)
              | replace (a =? b) with true by (symmetry; apply Z.eqb_eq; lia) ]
    end.

Ltac eval_opcode :=
  cbn [Z.eqb Z.ltb Z.compare Pos.compare Pos.compare_cont andb Pos.eqb
       readUInt8].

(** ** Bytes and little-endian numbers *)

Lemma byte_cases (P : Z -> bool) :
  forallb P (seqZ 0 256) = true -> forall b, is_byte b -> P b = true.
Proof.
  intros H b Hb. rewrite forallb_forall in H. apply H.
  apply list_elem_of_In, elem_of_seqZ. unfold is_byte in Hb. lia.
Qed.

Lemma land_128 b : is_byte b -> (Z.land b 128 =? 0) = (b <? 128).
Proof.
  intros Hb.
  apply (byte_cases (fun b => bool_decide ((Z.land b 128 =? 0) = (b <? 128)))) in Hb;
    [ by apply bool_decide_eq_true in Hb | by vm_compute ].
Qed.

Lemma lor_128 b : is_byte b -> b < 128 -> Z.lor b 128 = b + 128.
Proof.
  intros Hb Hlt.
  apply (byte_cases (fun b => (128 <=? b) || (Z.lor b 128 =? b + 128))) in Hb;
    [ | by vm_compute ].
  apply orb_true_iff in Hb as [Hb | Hb]; lia.
Qed.

Lemma land_127 b : is_byte b -> Z.land b 127 = b mod 128.
Proof.
  intros Hb. change 127 with (Z.ones 7). rewrite Z.land_ones by lia. done.
Qed.

Lemma shiftr_7 b : is_byte b -> (Z.shiftr b 7 =? 0) = (b <? 128).
Proof.
  intros Hb. rewrite Z.shiftr_div_pow2 by lia. change (2 ^ 7) with 128.
  unfold is_byte in Hb.
  destruct (Z.ltb_spec b 128).
  - rewrite Z.div_small by lia. done.
  - apply Z.eqb_neq. intros H0.
    pose proof (Z.div_le_mono 128 b 128 ltac:(lia) ltac:(lia)) as Hd.
    rewrite Z.div_same in Hd by lia. lia.
Qed.

Lemma BN_fromLE_app a b :
  BN_fromLE (a ++ b) = BN_fromLE a + 256 ^ Z.of_nat (length a) * BN_fromLE b.
Proof.
  induction a as [|x a IH]; simpl BN_fromLE; simpl length.
  - change (256 ^ Z.of_nat 0) with 1. lia.
  - rewrite IH, Nat2Z.inj_succ, Z.pow_succ_r by lia. lia.
Qed.

Lemma BN_fromLE_bound h :
  Forall is_byte h -> 0 <= BN_fromLE h < 256 ^ Z.of_nat (length h).
Proof.
  induction 1 as [|b h Hb _ IH]; simpl BN_fromLE; simpl length.
  - change (256 ^ Z.of_nat 0) with 1. lia.
  - rewrite Nat2Z.inj_succ, Z.pow_succ_r by lia. unfold is_byte in Hb. lia.
Qed.

Lemma BN_fromLE_zeros n : BN_fromLE (zeros n) = 0.
Proof. unfold zeros. induction n as [|n IH]; simpl; [done | rewrite IH; done]. Qed.

(** A number has one little-endian form of a given width. *)
Lemma BN_fromLE_inj a b :
  length a = length b -> Forall is_byte a -> Forall is_byte b ->
  BN_fromLE a = BN_fromLE b -> a = b.
Proof.
  revert b. induction a as [|x a IH]; intros [|y b] Hlen Ha Hb Heq;
    simpl in Hlen; try done.
  apply Forall_cons in Ha as [Hx Ha]. apply Forall_cons in Hb as [Hy Hb].
  simpl in Heq. unfold is_byte in Hx, Hy.
  assert (x = y) by lia. subst y.
  f_equal. apply IH; [lia | done | done | lia].
Qed.

Lemma le_digits_bytes fuel n : 0 <= n -> Forall is_byte (le_digits fuel n).
Proof.
  revert n. induction fuel as [|fuel IH]; intros n Hn; simpl; [constructor|].
  destruct (Z.eqb_spec n 0); [constructor|].
  constructor.
  - unfold is_byte. apply Z.mod_pos_bound. lia.
  - apply IH. apply Z.div_pos; lia.
Qed.

Lemma le_digits_value fuel n :
  0 <= n < 256 ^ Z.of_nat fuel -> BN_fromLE (le_digits fuel n) = n.
Proof.
  revert n. induction fuel as [|fuel IH]; intros n Hn; simpl.
  - change (256 ^ Z.of_nat 0) with 1 in Hn. lia.
  - destruct (Z.eqb_spec n 0); [done|]. simpl.
    rewrite Nat2Z.inj_succ, Z.pow_succ_r in Hn by lia.
    rewrite IH.
    + pose proof (Z.div_mod n 256 ltac:(lia)). lia.
    + split; [apply Z.div_pos; lia|].
      apply Z.div_lt_upper_bound; lia.
Qed.

(** The most significant digit is not zero. *)
Lemma le_digits_msb fuel n ds m :
  0 <= n < 256 ^ Z.of_nat fuel -> le_digits fuel n = ds ++ [m] -> 0 < m.
Proof.
  revert n ds. induction fuel as [|fuel IH]; intros n ds Hn; simpl.
  - intros H. by destruct ds.
  - destruct (Z.eqb_spec n 0) as [|Hn0]; [intros H; by destruct ds|].
    rewrite Nat2Z.inj_succ, Z.pow_succ_r in Hn by lia.
    assert (0 <= n / 256 < 256 ^ Z.of_nat fuel) as Hq.
    { split; [apply Z.div_pos; lia | apply Z.div_lt_upper_bound; lia]. }
    destruct ds as [|d ds]; simpl; intros H; injection H as Hd Hrest.
    + assert (n / 256 = 0) as Hz.
      { destruct fuel; simpl in Hrest.
        - change (256 ^ Z.of_nat 0) with 1 in Hq. lia.
        - destruct (Z.eqb_spec (n / 256) 0); [done | discriminate]. }
      pose proof (Z.div_mod n 256 ltac:(lia)). lia.
    + by apply (IH (n / 256) ds).
Qed.

Lemma log2_fuel n : 0 < n -> 0 <= n < 256 ^ Z.of_nat (S (Z.to_nat (Z.log2 n))).
Proof.
  intros Hn. split; [lia|].
  pose proof (Z.log2_nonneg n) as Hl.
  pose proof (Z.log2_spec n Hn) as [_ Hlt].
  rewrite Nat2Z.inj_succ, Z2Nat.id by done.
  eapply Z.lt_le_trans; [apply Hlt|].
  change 256 with (2 ^ 8). rewrite <- Z.pow_mul_r by lia.
  apply Z.pow_le_mono_r; lia.
Qed.

(** The sign-and-magnitude form of a positive number and of its opposite:
    little-endian digits, the last one below 128 for the positive number
    and with the top bit set for the negative one. *)
Lemma BN_toSM_little_shape n :
  0 < n ->
  exists xs y,
    BN_toSM_little n = xs ++ [y] /\
    BN_toSM_little (- n) = xs ++ [y + 128] /\
    Forall is_byte xs /\ 0 <= y < 128 /\
    BN_fromLE (xs ++ [y]) = n /\
    256 ^ Z.of_nat (length xs) <= 2 * n.
Proof.
  intros Hn.
  pose proof (log2_fuel n Hn) as Hfuel.
  pose proof (le_digits_bytes (S (Z.to_nat (Z.log2 n))) n ltac:(lia)) as Hbytes.
  pose proof (le_digits_value _ _ Hfuel) as Hval.
  pose proof (le_digits_msb (S (Z.to_nat (Z.log2 n))) n) as Hmsb.
  unfold BN_toSM_little, BN_toSMBigEndian, BN_toBuffer.
  rewrite Z.opp_involutive.
  settle_cmp.
  destruct (le_digits (S (Z.to_nat (Z.log2 n))) n) as [|m ds _] using rev_ind.
  { simpl in Hval. lia. }
  specialize (Hmsb ds m Hfuel eq_refl).
  apply Forall_app in Hbytes as [Hds Hm].
  rewrite Forall_singleton in Hm.
  rewrite reverse_snoc, (land_128 m Hm).
  pose proof (BN_fromLE_bound ds Hds) as Hdsb.
  rewrite BN_fromLE_app in Hval. simpl in Hval.
  unfold is_byte in Hm.
  destruct (Z.ltb_spec m 128) as [Hlt | Hge].
  - exists ds, m.
    rewrite (lor_128 m) by (unfold is_byte; lia).
    rewrite BN_fromLE_app. simpl BN_fromLE.
    repeat split; try done; try lia.
    + destruct m as [|p|p]; try lia. destruct ds; by rewrite reverse_cons, reverse_involutive.
    + assert (m + 128 <> 0) as Hne by lia.
      destruct (m + 128) as [|p|p]; try lia; by rewrite reverse_cons, reverse_involutive.
    + nia.
  - exists (ds ++ [m]), 0.
    rewrite !BN_fromLE_app, length_app, Nat2Z.inj_add. simpl BN_fromLE. simpl length.
    repeat split; try lia.
    + by rewrite !reverse_cons, reverse_involutive.
    + by rewrite !reverse_cons, reverse_involutive.
    + apply Forall_app. split; [done|]. apply Forall_singleton. unfold is_byte. lia.
    + rewrite Z.pow_add_r by lia. change (256 ^ Z.of_nat 1) with 256. nia.
Qed.

Lemma pow256_lt a b : 256 ^ Z.of_nat a < 256 ^ Z.of_nat b -> (a < b)%nat.
Proof.
  intros H. destruct (decide (a < b)%nat) as [|Hge]; [done|].
  assert (256 ^ Z.of_nat b <= 256 ^ Z.of_nat a) by (apply Z.pow_le_mono_r; lia).
  lia.
Qed.

(** [num2bin] of a positive number that fits: the little-endian form of
    that width. *)
Lemma num2bin_pos n w :
  0 < n < 2 ^ (8 * Z.of_nat w - 1) ->
  exists r, num2bin n w = Ok r /\ length r = w /\ Forall is_byte r /\
            BN_fromLE r = n.
Proof.
  intros [Hn Hlt].
  destruct (BN_toSM_little_shape n Hn) as (xs & y & Hs & _ & Hxs & Hy & Hval & Hlen).
  assert (0 < w)%nat as Hw.
  { destruct w; [|lia]. simpl in Hlt. change (2 ^ (-1)) with 0 in Hlt. lia. }
  assert (2 * n < 256 ^ Z.of_nat w) as H2n.
  { change 256 with (2 ^ 8). rewrite <- Z.pow_mul_r by lia.
    replace (8 * Z.of_nat w) with (Z.succ (8 * Z.of_nat w - 1)) by lia.
    rewrite Z.pow_succ_r by lia. lia. }
  assert (length xs < w)%nat as Hfit by (apply pow256_lt; lia).
  assert (Forall is_byte (xs ++ [y])) as Hbytes.
  { apply Forall_app. split; [done|]. apply Forall_singleton. unfold is_byte. lia. }
  unfold num2bin.
  replace (n =? 0) with false by (symmetry; apply Z.eqb_neq; lia).
  rewrite Hs, length_app. simpl length.
  replace (w <? length xs + 1)%nat with false by (symmetry; apply Nat.ltb_ge; lia).
  destruct (Nat.eqb_spec (length xs + 1) w) as [Heq | Hne].
  - exists (xs ++ [y]). rewrite length_app. simpl. done.
  - replace (length xs + 1 - 1)%nat with (length xs) by lia.
    rewrite take_app_length, drop_app_length.
    settle_cmp.
    eexists. split; [done|].
    split; [|split].
    + rewrite !length_app. unfold zeros. rewrite length_replicate. simpl. lia.
    + apply Forall_app. split; [done|]. apply Forall_app. split.
      * apply Forall_singleton. unfold is_byte. lia.
      * unfold zeros. apply Forall_replicate. unfold is_byte. lia.
    + rewrite app_assoc, BN_fromLE_app, BN_fromLE_zeros. lia.
Qed.

Lemma writeUInt16LE_spec n :
  0 <= n < 2 ^ 16 ->
  length (writeUInt16LE n) = 2%nat /\ Forall is_byte (writeUInt16LE n) /\
  BN_fromLE (writeUInt16LE n) = n.
Proof.
  intros Hn. unfold writeUInt16LE, is_byte. split; [done|]. split.
  - repeat constructor; apply Z.mod_pos_bound; lia.
  - cbn [BN_fromLE]. change (2 ^ 16) with 65536 in Hn.
    Z.to_euclidean_division_equations. lia.
Qed.

Lemma writeUInt32LE_spec n :
  0 <= n < 2 ^ 32 ->
  length (writeUInt32LE n) = 4%nat /\ Forall is_byte (writeUInt32LE n) /\
  BN_fromLE (writeUInt32LE n) = n.
Proof.
  intros Hn. unfold writeUInt32LE, is_byte. split; [done|]. split.
  - repeat constructor; apply Z.mod_pos_bound; lia.
  - cbn [BN_fromLE]. change (2 ^ 32) with 4294967296 in Hn.
    Z.to_euclidean_division_equations. lia.
Qed.

(** A number that does not fit is refused. *)
Lemma num2bin_overflow n w :
  0 < n -> 2 ^ (8 * Z.of_nat w - 1) <= n ->
  num2bin n w = Err (Error_cannot_fit n w).
Proof.
  intros Hn Hge.
  destruct (BN_toSM_little_shape n Hn) as (xs & y & Hs & _ & Hxs & Hy & Hval & _).
  unfold num2bin.
  replace (n =? 0) with false by (symmetry; apply Z.eqb_neq; lia).
  rewrite Hs, length_app. simpl length.
  destruct (Nat.ltb_spec w (length xs + 1)) as [|Hfit]; [done|]. exfalso.
  pose proof (BN_fromLE_bound xs Hxs) as Hbx.
  rewrite BN_fromLE_app in Hval. simpl in Hval.
  assert (256 ^ Z.of_nat (length xs) <= 256 ^ (Z.of_nat w - 1)) as Hmono
    by (apply Z.pow_le_mono_r; lia).
  assert (2 ^ (8 * Z.of_nat w - 1) = 128 * 256 ^ (Z.of_nat w - 1)) as Hpow.
  { replace (8 * Z.of_nat w - 1) with (7 + 8 * (Z.of_nat w - 1)) by lia.
    rewrite Z.pow_add_r, Z.pow_mul_r by lia. done. }
  nia.
Qed.

(** The two frame widths in use: a 4-byte and a 2-byte length. *)
Lemma num2bin_4 n :
  0 <= n < 2 ^ 31 -> num2bin n 4 = Ok (writeUInt32LE n).
Proof.
  intros Hn. destruct (decide (n = 0)) as [-> | Hn0]; [done|].
  destruct (num2bin_pos n 4) as (r & -> & Hlen & Hbytes & Hval); [simpl; lia|].
  destruct (writeUInt32LE_spec n) as (Hlen' & Hbytes' & Hval').
  { change (2 ^ 32) with 4294967296. change (2 ^ 31) with 2147483648 in Hn. lia. }
  f_equal. apply BN_fromLE_inj; congruence.
Qed.

Lemma num2bin_2 n :
  0 <= n < 2 ^ 15 -> num2bin n 2 = Ok (writeUInt16LE n).
Proof.
  intros Hn. destruct (decide (n = 0)) as [-> | Hn0]; [done|].
  destruct (num2bin_pos n 2) as (r & -> & Hlen & Hbytes & Hval); [simpl; lia|].
  destruct (writeUInt16LE_spec n) as (Hlen' & Hbytes' & Hval').
  { change (2 ^ 16) with 65536. change (2 ^ 15) with 32768 in Hn. lia. }
  f_equal. apply BN_fromLE_inj; congruence.
Qed.

Lemma num2bin_4_Ok n r : 0 < n -> num2bin n 4 = Ok r -> n < 2 ^ 31.
Proof.
  intros Hn H.
  destruct (Z.lt_ge_cases n (2 ^ 31)) as [|Hge]; [done|].
  by rewrite (num2bin_overflow n 4) in H.
Qed.

(** ** Slices of a script *)

Lemma substr_inside s start len :
  0 <= start -> 0 <= len -> start + len <= Z.of_nat (length s) ->
  substr s start len = take (Z.to_nat len) (drop (Z.to_nat start) s).
Proof.
  intros Hs Hl Hle. unfold substr.
  replace (start <? 0) with false by (symmetry; apply Z.ltb_ge; lia).
  rewrite Z.min_l by lia. rewrite Z.max_l by lia. rewrite Z.min_l by lia. done.
Qed.

Lemma substr_empty s start len : len <= 0 -> substr s start len = [].
Proof.
  intros Hl. unfold substr. rewrite (Z.max_r len 0) by lia.
  match goal with |- take (Z.to_nat ?n) _ = _ =>
    replace (Z.to_nat n) with 0%nat by lia end.
  done.
Qed.

(** From the end: a negative start of a script of [size] bytes is
    [size + start], or 0 when that is negative again. *)
Lemma substr_negative s start len :
  start < 0 -> Z.min (- start) (Z.of_nat (length s)) <= len ->
  substr s start len = drop (Z.to_nat (Z.of_nat (length s) + start)) s.
Proof.
  intros Hs Hl. unfold substr.
  replace (start <? 0) with true by (symmetry; apply Z.ltb_lt; lia).
  replace (Z.to_nat (Z.max (Z.of_nat (length s) + start) 0))
    with (Z.to_nat (Z.of_nat (length s) + start)) by lia.
  apply take_ge. rewrite length_drop. lia.
Qed.

Lemma bin2num_4 a b c d :
  bin2num [a; b; c; d]
  = if Z.shiftr d 7 =? 0
    then a + 256 * (b + 256 * (c + 256 * (Z.land d 127 + 256 * 0)))
    else - (a + 256 * (b + 256 * (c + 256 * (Z.land d 127 + 256 * 0)))).
Proof. reflexivity. Qed.

Lemma bin2num_4_bound l4 :
  length l4 = 4%nat -> Forall is_byte l4 -> - 2 ^ 31 < bin2num l4 < 2 ^ 31.
Proof.
  intros Hlen Hb.
  destruct l4 as [|a [|b [|c [|d [|]]]]]; try discriminate.
  rewrite !Forall_cons in Hb. destruct Hb as (Ha & Hb & Hc & Hd & _).
  rewrite bin2num_4, (land_127 d Hd).
  unfold is_byte in *. change (2 ^ 31) with 2147483648.
  destruct (Z.shiftr d 7 =? 0); Z.to_euclidean_division_equations; lia.
Qed.

Lemma bin2num_writeUInt32LE n :
  0 <= n < 2 ^ 31 -> bin2num (writeUInt32LE n) = n.
Proof.
  intros Hn. unfold writeUInt32LE. rewrite bin2num_4.
  change (2 ^ 31) with 2147483648 in Hn.
  assert (is_byte (n / 16777216 mod 256)) as Hd
    by (unfold is_byte; apply Z.mod_pos_bound; lia).
  rewrite (shiftr_7 _ Hd), (land_127 _ Hd).
  replace (n / 16777216 mod 256 <? 128) with true
    by (symmetry; apply Z.ltb_lt; Z.to_euclidean_division_equations; lia).
  Z.to_euclidean_division_equations; lia.
Qed.


Lemma bin2num_snoc xs m :
  is_byte m ->
  bin2num (xs ++ [m])
  = if m <? 128 then BN_fromLE (xs ++ [m]) else - BN_fromLE (xs ++ [m - 128]).
Proof.
  intros Hm. unfold bin2num.
  rewrite length_app. simpl length.
  rewrite substr_inside by (rewrite ?length_app; simpl; lia).
  replace (Z.to_nat (Z.of_nat (length xs + 1) - 1)) with (length xs) by lia.
  replace (length xs + 1 - 1)%nat with (length xs) by lia.
  rewrite drop_app_length, take_app_length.
  change (take (Z.to_nat 1) [m]) with [m]. cbv beta iota.
  rewrite (shiftr_7 m Hm), (land_127 m Hm).
  unfold is_byte in Hm.
  destruct (Z.ltb_spec m 128).
  - by rewrite Z.mod_small by lia.
  - replace (m mod 128) with (m - 128); [done|].
    Z.to_euclidean_division_equations. lia.
Qed.

(** The sign-and-magnitude bytes of a number are read back by [bin2num]. *)
Lemma bin2num_toSM n : n <> 0 -> bin2num (BN_toSM_little n) = n.
Proof.
  intros Hn.
  destruct (Z.lt_trichotomy n 0) as [Hneg | [? | Hpos]]; [|done|].
  - destruct (BN_toSM_little_shape (- n) ltac:(lia))
      as (xs & y & _ & Hs & _ & Hy & Hval & _).
    rewrite Z.opp_involutive in Hs. rewrite Hs.
    rewrite bin2num_snoc by (unfold is_byte; lia).
    settle_cmp. replace (y + 128 - 128) with y by lia. lia.
  - destruct (BN_toSM_little_shape n Hpos) as (xs & y & Hs & _ & _ & Hy & Hval & _).
    rewrite Hs, bin2num_snoc by (unfold is_byte; lia).
    by settle_cmp.
Qed.

Lemma BN_toSM_little_nonempty n : n <> 0 -> BN_toSM_little n <> [].
Proof.
  intros Hn.
  destruct (Z.lt_trichotomy n 0) as [Hneg | [? | Hpos]]; [|done|].
  - destruct (BN_toSM_little_shape (- n) ltac:(lia)) as (xs & y & _ & Hs & _).
    rewrite Z.opp_involutive in Hs. rewrite Hs. by destruct xs.
  - destruct (BN_toSM_little_shape n Hpos) as (xs & y & Hs & _).
    rewrite Hs. by destruct xs.
Qed.

Lemma BN_toSM_little_small s : 0 < s < 128 -> BN_toSM_little s = [s].
Proof.
  intros Hs.
  destruct (BN_toSM_little_shape s ltac:(lia)) as (xs & y & -> & _ & _ & Hy & Hval & Hlen).
  destruct xs as [|x xs].
  - cbn [app]. cbn [app BN_fromLE] in Hval. f_equal. lia.
  - exfalso. simpl length in Hlen.
    rewrite Nat2Z.inj_succ, Z.pow_succ_r in Hlen by lia.
    assert (0 < 256 ^ Z.of_nat (length xs)) by (apply Z.pow_pos_nonneg; lia).
    lia.
Qed.

Lemma bin2num_small s : 0 <= s < 128 -> bin2num [s] = s.
Proof.
  intros Hs. assert (is_byte s) as Hb by (unfold is_byte; lia).
  unfold bin2num. cbn [length substr]. simpl.
  rewrite (shiftr_7 s Hb), (land_127 s Hb).
  replace (s <? 128) with true by (symmetry; apply Z.ltb_lt; lia).
  rewrite Z.mod_small by lia. lia.
Qed.

(** ** Push data *)

Lemma read_exact (data rest : list Z) len :
  len = Z.of_nat (length data) -> read len (data ++ rest) = Ok (data, rest).
Proof.
  intros ->. unfold read. rewrite Nat2Z.id.
  by rewrite take_app_length, drop_app_length.
Qed.

Lemma read_whole (data : list Z) len :
  len = Z.of_nat (length data) -> read len data = Ok (data, []).
Proof.
  intros H. pose proof (read_exact data [] len H) as Hr.
  by rewrite app_nil_r in Hr.
Qed.

(** The bytes that a push of [data] takes on the wire. *)
Lemma push_cases (data : list Z) h :
  Script_toHex (Script_fromASM data) = Ok h ->
  let len := Z.of_nat (length data) in
  (len < 76 /\ h = len :: data) \/
  (76 <= len < 256 /\ h = 76 :: len :: data) \/
  (256 <= len < 65536 /\ h = 77 :: writeUInt16LE len ++ data) \/
  (65536 <= len < 2 ^ 32 /\ h = 78 :: writeUInt32LE len ++ data).
Proof.
  intros H len. unfold Script_fromASM in H. fold len in H.
  unfold Script_toHex, Chunk_toBuffer in H. cbn [chunk_opcodenum chunk_buf chunk_len] in H.
  unfold OP_PUSHDATA1, OP_PUSHDATA2, OP_PUSHDATA4 in H.
  change (2 ^ 8) with 256 in H. change (2 ^ 16) with 65536 in H.
  destruct (Z.ltb_spec len 76).
  - left. replace (len <? 76) with true in H by (symmetry; apply Z.ltb_lt; lia).
    simpl in H. rewrite app_nil_r in H. split; [done|]. by injection H.
  - destruct (Z.ltb_spec len 256).
    + right; left. simpl in H. rewrite app_nil_r in H.
      rewrite Z.mod_small in H by lia. split; [done|]. by injection H.
    + destruct (Z.ltb_spec len 65536).
      * right; right; left. simpl in H. rewrite app_nil_r in H. split; [done|]. by injection H.
      * destruct (Z.ltb_spec len (2 ^ 32)).
        -- right; right; right. simpl in H. rewrite app_nil_r in H. split; [done|]. by injection H.
        -- simpl in H. done.
Qed.

Lemma readUInt16LE_write n rest :
  0 <= n < 65536 -> readUInt16LE (writeUInt16LE n ++ rest) = Ok (n, rest).
Proof.
  intros Hn. unfold readUInt16LE, writeUInt16LE. cbn [app].
  do 2 f_equal. Z.to_euclidean_division_equations. lia.
Qed.

Lemma readUInt32LE_write n rest :
  0 <= n < 2 ^ 32 -> readUInt32LE (writeUInt32LE n ++ rest) = Ok (n, rest).
Proof.
  intros Hn. change (2 ^ 32) with 4294967296 in Hn.
  unfold readUInt32LE, writeUInt32LE. cbn [app].
  do 2 f_equal. Z.to_euclidean_division_equations. lia.
Qed.

(** A push that the builder wrote is read back by [readBytes]. *)
Lemma readBytes_push (data : list Z) h rest :
  data <> [] ->
  Script_toHex (Script_fromASM data) = Ok h ->
  readBytes (h ++ rest) = Ok (data, rest).
Proof.
  intros Hne H.
  assert (0 < Z.of_nat (length data)) as Hpos
    by (destruct data; [done | simpl; lia]).
  unfold readBytes, bind_reader, OP_PUSHDATA1, OP_PUSHDATA2, OP_PUSHDATA4.
  destruct (push_cases data h H) as [[Hl ->] | [[Hl ->] | [[Hl ->] | [Hl ->]]]];
    cbn [app readUInt8].
  - settle_cmp. cbn [andb]. by rewrite read_exact.
  - eval_opcode. by rewrite read_exact.
  - eval_opcode.
    rewrite <- app_assoc, readUInt16LE_write by lia. by rewrite read_exact.
  - eval_opcode.
    rewrite <- app_assoc, readUInt32LE_write by lia. by rewrite read_exact.
Qed.

(** And the script made of that push has one chunk, with the data. *)
Lemma fromHex_push (data : list Z) h :
  data <> [] ->
  Script_toHex (Script_fromASM data) = Ok h ->
  (Script_fromHex h ≫= chunk0_buf) = Ok data.
Proof.
  intros Hne H.
  assert (0 < Z.of_nat (length data)) as Hpos
    by (destruct data; [done | simpl; lia]).
  assert (forall fuel c, readChunk h = Ok (c, []) -> chunk_buf c = Some data ->
            h <> [] -> (fromBuffer_loop (S fuel) h ≫= chunk0_buf) = Ok data) as Hloop.
  { intros fuel c Hc Hbuf Hh. destruct h as [|b h']; [done|].
    cbn [fromBuffer_loop]. rewrite Hc. destruct fuel; cbn; by rewrite Hbuf. }
  unfold Script_fromHex.
  destruct (push_cases data h H) as [[Hl ->] | [[Hl ->] | [[Hl ->] | [Hl ->]]]];
    cbn [length]; eapply Hloop; try done;
    unfold readChunk, readPushData, bind_reader,
      OP_PUSHDATA1, OP_PUSHDATA2, OP_PUSHDATA4;
    cbn [readUInt8].
  - settle_cmp. cbn [andb]. by rewrite read_whole.
  - done.
  - eval_opcode. by rewrite read_whole.
  - done.
  - eval_opcode. rewrite readUInt16LE_write by lia. by rewrite read_whole.
  - done.
  - eval_opcode. rewrite readUInt32LE_write by lia. by rewrite read_whole.
  - done.
Qed.

(** ** The leaf codec *)

(** C3.  The Integer 0 is encoded as the push-data element [01 00], whose
    payload is the single byte 0x00 and not the empty sequence, and that
    encoding is decoded, as an Integer, to 0. *)
Theorem int2hex_zero_roundtrip :
  Stateful.int2hex 0 = Ok [1; 0] /\
  Stateful.toHex (Int 0) = Ok [1; 0] /\
  (Script_fromHex [1; 0] ≫= chunk0_buf) = Ok [0] /\
  Stateful.hex2int [1; 0] = Ok 0 /\
  Stateful.deserializer ScryptType.INT [1; 0] = Ok (Int 0).
Proof. repeat split; reflexivity. Qed.

(** The payload of an encoded Integer is a push of data that is not empty,
    whatever the value. *)
Lemma int2hex_push n h :
  Stateful.int2hex n = Ok h ->
  exists data, data <> [] /\ Script_toHex (Script_fromASM data) = Ok h.
Proof.
  unfold Stateful.int2hex. intros H. destruct (Z.eqb_spec n 0) as [-> | Hn].
  - by exists [0].
  - exists (BN_toSM_little n). split; [by apply BN_toSM_little_nonempty | done].
Qed.

(** C4.  The empty byte string is encoded as the one-byte marker [00], and
    the input [00] is decoded, as a ByteString, to the empty string: a
    result, not an error. *)
Theorem bytes2hex_empty_roundtrip :
  Stateful.bytes2hex [] = Ok [0] /\
  Stateful.toHex (Bytes []) = Ok [0] /\
  Stateful.hex2bytes [0] = Ok [] /\
  Stateful.deserializer ScryptType.BYTES [0] = Ok (Bytes []).
Proof. repeat split; reflexivity. Qed.

(** Every Integer that the encoder could write is decoded to itself. *)
Lemma hex2int_int2hex n h :
  Stateful.int2hex n = Ok h -> Stateful.hex2int h = Ok n.
Proof.
  unfold Stateful.int2hex, Stateful.hex2int. intros H.
  destruct (Z.eqb_spec n 0) as [-> | Hn].
  - by injection H as <-.
  - pose proof (fromHex_push _ _ (BN_toSM_little_nonempty n Hn) H) as Hp.
    destruct (Script_fromHex h) as [s|]; [|done]. simpl in *.
    rewrite Hp. simpl. by rewrite bin2num_toSM.
Qed.

(** Every byte string but the empty one is decoded to itself. *)
Lemma hex2bytes_bytes2hex b h :
  b <> [] -> Stateful.bytes2hex b = Ok h -> Stateful.hex2bytes h = Ok b.
Proof.
  unfold Stateful.bytes2hex, Stateful.hex2bytes. intros Hb H.
  rewrite bool_decide_eq_false_2 in H by done.
  pose proof (fromHex_push _ _ Hb H) as Hp.
  rewrite bool_decide_eq_false_2; [done|].
  intros ->. by vm_compute in Hp.
Qed.

(** *** A SigHashType with the top bit set *)

(** A literal of one byte [s] of the kind SigHashType is pushed as it is,
    and what was pushed is read with the Integer rule, where the top bit
    of the byte is a sign; the constructor is then given the number. *)
Lemma sighashtype_byte s :
  0 <= s < 256 ->
  Stateful.toHex (SigHashLiteral s) = Ok [1; s] /\
  Stateful.hex2int [1; s] = Ok (if s <? 128 then s else 128 - s) /\
  Stateful.deserializer ScryptType.SIGHASHTYPE [1; s]
    = SigHashType (if s <? 128 then s else 128 - s).
Proof.
  intros Hs. split; [done|].
  assert (bin2num [s] = if s <? 128 then s else 128 - s) as Hb.
  { destruct (Z.ltb_spec s 128).
    - apply bin2num_small. lia.
    - change [s] with ([] ++ [s]). rewrite bin2num_snoc by (unfold is_byte; lia).
      settle_cmp. cbn. lia. }
  split.
  - change (Stateful.hex2int [1; s]) with (@Ok Z (bin2num [s])). by rewrite Hb.
  - change (Stateful.deserializer ScryptType.SIGHASHTYPE [1; s])
      with (SigHashType (Number (bin2num [s]))).
    by rewrite Hb.
Qed.

(** C8: the failing input.  The SigHashType 0xc1, ALL with ANYONECANPAY,
    is a string literal of one byte; the encoder takes the Integer rule
    for bigints and PrivKey literals only, and pushes the byte c1 of any
    other literal as it is.  The decoder reads a SigHashType with the
    Integer rule, where the top bit of c1 is a sign: it reads -65, which
    the constructor refuses, and decoding throws.  The Integer encoding of
    193 would have been [02 c1 00], which the decoder reads as 193 and
    gives back. *)
Theorem sighashtype_c1_not_recovered :
  SigHashType 193 = Ok (SigHashLiteral 193) /\
  Stateful.toHex (SigHashLiteral 193) = Ok [1; 193] /\
  Stateful.hex2int [1; 193] = Ok (-65) /\
  Stateful.deserializer ScryptType.SIGHASHTYPE [1; 193]
    = Err (Error_unsupported_SigHashType (-65)) /\
  Stateful.int2hex 193 = Ok [2; 193; 0] /\
  Stateful.deserializer ScryptType.SIGHASHTYPE [2; 193; 0]
    = Ok (SigHashLiteral 193).
Proof. repeat split; reflexivity. Qed.

(** *** Kinds outside the codec *)

(** C9, amended.  The decoder refuses every type name that is not one of
    the twelve primitive kinds; the encoder does not refuse a value:
    whatever is neither a bigint, a boolean nor a string is encoded as
    the single byte 00. *)
Theorem unsupported_kinds type h x :
  type ∉ ScryptType.all ->
  typeof x ∉ ["bigint"; "boolean"; "string"] ->
  Stateful.deserializer type h = Err (Error_cannot_cast type) /\
  Stateful.toHex x = Ok [0].
Proof.
  intros Htype Hx. split.
  - unfold ScryptType.all in Htype. rewrite !not_elem_of_cons in Htype.
    destruct Htype as (H1 & H2 & H3 & H4 & H5 & H6 & H7 & H8 & H9 & H10 & H11 & H12 & _).
    unfold Stateful.deserializer.
    repeat match goal with
           | H : type ≠ ?k |- context [String.eqb type ?k] =>
               rewrite (proj2 (String.eqb_neq type k) H)
           end.
    done.
  - destruct x; simpl in *; try done; exfalso; apply Hx; set_solver.
Qed.

Lemma unsupported_kinds_witness :
  Stateful.deserializer "auto" [1; 5] = Err (Error_cannot_cast "auto") /\
  Stateful.toHex (JsNumber 5) = Ok [0].
Proof.
  refine (unsupported_kinds "auto" [1; 5] (JsNumber 5) _ _);
    apply (bool_decide_unpack _); vm_compute; exact I.
Defined.

(** C9 as stated fails for the encoder: a number, [undefined] and an
    array are all encoded as 00, without an error. *)
Lemma toHex_defaults_silently :
  Stateful.toHex (JsNumber 5) = Ok [0] /\
  Stateful.toHex JsUndefined = Ok [0] /\
  Stateful.toHex (JsArray [JsBigInt 1; JsBigInt 2]) = Ok [0].
Proof. repeat split; reflexivity. Qed.

(** ** The state blob *)

Section BuildState.

Context {TypeResolver : Type}.
Variable flatternArg :
  Argument -> TypeResolver -> FlattenOptions -> result Arguments.

Lemma state_body_eq args_ isGenesis encs :
  mapM (fun a => Stateful.toHex (arg_value a)) args_ = Ok encs ->
  Stateful.state_body args_ isGenesis
    = Ok (Stateful.bool2hex isGenesis ++ concat encs).
Proof. intros H. unfold Stateful.state_body. simpl. by rewrite H. Qed.

(** What [buildState] returns for leaves that are encoded to [encs]. *)
Lemma buildState_blob args isGenesis resolver args_ encs :
  Stateful.flatMap
    (fun arg => flatternArg arg resolver (mkOptions true false)) args
    = Ok args_ ->
  args_ <> [] ->
  mapM (fun a => Stateful.toHex (arg_value a)) args_ = Ok encs ->
  let body := Stateful.bool2hex isGenesis ++ concat encs in
  Stateful.buildState flatternArg args isGenesis resolver
  = if Z.of_nat (length body) <? 2 ^ 31
    then Ok (body ++ writeUInt32LE (Z.of_nat (length body)) ++ [0])
    else Err (Error_cannot_fit (Z.of_nat (length body)) 4).
Proof.
  intros Hflat Hne Henc body.
  unfold Stateful.buildState. rewrite Hflat. simpl.
  destruct args_ as [|a args_]; [done|]. simpl length.
  rewrite (state_body_eq _ _ _ Henc). simpl.
  fold body.
  assert (body <> []) as Hbody by (unfold body; by destruct isGenesis).
  destruct body as [|b0 body'] eqn:Hb; [done|].
  destruct (Z.ltb_spec (Z.of_nat (length (b0 :: body'))) (2 ^ 31)).
  - rewrite num2bin_4 by lia. simpl. done.
  - rewrite num2bin_overflow; [done | simpl length; lia | done].
Qed.

(** C2.  When the flattened leaf list [args_] is not empty and its leaves
    are encoded to [encs], the blob that [buildState] returns is the body,
    that is the isGenesis byte and [encs] in order, followed by exactly
    five bytes: the count of the bytes of the body on four bytes,
    little-endian, and the version byte 0.  The blob is returned for every
    body shorter than 2^31 bytes, which is every body that a hex string
    can hold. *)
Theorem buildState_trailer args isGenesis resolver args_ encs :
  Stateful.flatMap
    (fun arg => flatternArg arg resolver (mkOptions true false)) args
    = Ok args_ ->
  args_ <> [] ->
  mapM (fun a => Stateful.toHex (arg_value a)) args_ = Ok encs ->
  let body := Stateful.bool2hex isGenesis ++ concat encs in
  let bodyLength := writeUInt32LE (Z.of_nat (length body)) in
  let version := [Stateful.CURRENT_STATE_VERSION] in
  (forall blob,
     Stateful.buildState flatternArg args isGenesis resolver = Ok blob ->
     blob = body ++ bodyLength ++ version /\
     BN_fromLE bodyLength = Z.of_nat (length body)) /\
  (Z.of_nat (length body) < 2 ^ 31 ->
   Stateful.buildState flatternArg args isGenesis resolver
   = Ok (body ++ bodyLength ++ version)) /\
  length (bodyLength ++ version) = 5%nat /\
  length body = (1 + sum_list (length <$> encs))%nat /\
  Stateful.CURRENT_STATE_VERSION = 0.
Proof.
  intros Hflat Hne Henc body bodyLength version.
  pose proof (buildState_blob args isGenesis resolver args_ encs Hflat Hne Henc)
    as Hblob.
  cbv zeta in Hblob. fold body in Hblob.
  split; [|split; [|split; [|split]]]; try done.
  - intros blob Hb. rewrite Hblob in Hb.
    destruct (Z.ltb_spec (Z.of_nat (length body)) (2 ^ 31)) as [Hlt|]; [|done].
    injection Hb as <-. split; [done|].
    apply writeUInt32LE_spec.
    change (2 ^ 32) with 4294967296. change (2 ^ 31) with 2147483648 in Hlt.
    lia.
  - intros Hlt. rewrite Hblob. by settle_cmp.
  - unfold body. rewrite length_app. f_equal; [by destruct isGenesis|].
    clear. induction encs as [|e encs' IH]; simpl; [done|].
    rewrite length_app, IH. done.
Qed.

End BuildState.

Lemma buildState_trailer_witness :
  buildState counterState true (fun type => type)
  = Ok ([1; 1; 5; 1] ++ [4; 0; 0; 0] ++ [0]).
Proof.
  refine (proj1 (proj2 (buildState_trailer flatternArg counterState true
            (fun type => type) counterState [[1; 5]; [1]] _ _ _)) _);
    [reflexivity | discriminate | reflexivity | reflexivity].
Defined.

(** ** The legacy serializer *)

(** [serialize] returns for the safe values, and throws the assertion of
    bn.js for a number from 2^53 on. *)
Lemma serialize_safe v :
  safeValue v -> exists asm, Serializer.serialize v = Ok asm.
Proof.
  destruct v as [flag | n | hexStr]; cbn; eauto.
  intros Hn. unfold Serializer.serializeInt, Serializer.BN_fromNumber.
  destruct (n =? 0); [eauto|].
  replace (Z.abs n <? 2 ^ 53) with true by (symmetry; by apply Z.ltb_lt).
  cbn. eauto.
Qed.

Lemma serialize_unsafe v :
  ~ safeValue v -> Serializer.serialize v = Err Error_assertion_failed.
Proof.
  destruct v as [flag | n | hexStr]; cbn; try done.
  intros Hn. unfold Serializer.serializeInt, Serializer.BN_fromNumber.
  assert (n <> 0) as Hn0 by (intros ->; apply Hn; done).
  replace (n =? 0) with false by (symmetry; by apply Z.eqb_neq).
  replace (Z.abs n <? 2 ^ 53) with false by (symmetry; apply Z.ltb_ge; lia).
  done.
Qed.

Lemma mapM_serialize_safe values :
  Forall safeValue values ->
  exists asms, mapM Serializer.serialize values = Ok asms.
Proof.
  induction 1 as [|v values Hv _ [asms IH]]; [by exists []|].
  destruct (serialize_safe v Hv) as [asm Ha].
  exists (asm :: asms). cbn [mapM]. rewrite Ha. cbn. by rewrite IH.
Qed.

(** The loop of [serializeState] over values that are serialized. *)
Lemma serializeLoop_spec values asms asms0 len0 :
  mapM Serializer.serialize values = Ok asms ->
  foldl (fun acc s =>
           '(asms, stateLen) ← acc;
           asm ← Serializer.serialize s;
           Ok (asms ++ [asm], stateLen + (1 + Z.of_nat (length asm))))
        (Ok (asms0, len0)) values
  = Ok (asms0 ++ asms,
        len0 + Z.of_nat (sum_list_with (fun asm => 1 + length asm)%nat asms)).
Proof.
  revert asms asms0 len0.
  induction values as [|v values IH]; intros asms asms0 len0 H; cbn [mapM] in H.
  - injection H as <-. simpl. rewrite app_nil_r. do 2 f_equal. lia.
  - destruct (Serializer.serialize v) as [asm|] eqn:Hv; [|done]. cbn in H.
    destruct (mapM Serializer.serialize values) as [asms'|] eqn:Hm; [|done].
    cbn in H. injection H as <-.
    cbn [foldl mbind result_bind]. rewrite Hv. cbn [mbind result_bind].
    rewrite (IH asms') by done. cbn [sum_list_with].
    do 2 f_equal; [by rewrite <- app_assoc | lia].
Qed.

(** And over values of which one is not: the error of the first. *)
Lemma serializeLoop_err values e acc :
  mapM Serializer.serialize values = Err e ->
  foldl (fun acc s =>
           '(asms, stateLen) ← acc;
           asm ← Serializer.serialize s;
           Ok (asms ++ [asm], stateLen + (1 + Z.of_nat (length asm))))
        (Ok acc) values
  = Err e.
Proof.
  revert acc. induction values as [|v values IH]; intros [asms0 len0] H; [done|].
  cbn [mapM] in H. cbn [foldl mbind result_bind].
  destruct (Serializer.serialize v) as [asm|e'] eqn:Hv; cbn in H |- *.
  - apply IH. by destruct (mapM Serializer.serialize values).
  - injection H as <-. clear. induction values as [|w values IH]; [done|].
    apply IH.
Qed.

(** What [serializeState] returns: the sum fits its field below 2^15. *)
Lemma serializeState_eq (state : Serializer.State) asms :
  mapM Serializer.serialize state.*2 = Ok asms ->
  let stateLen :=
    Z.of_nat (sum_list_with (fun asm => 1 + length asm)%nat asms) in
  Serializer.serializeState state
  = if stateLen <? 2 ^ 15
    then Ok (asms ++ [writeUInt16LE stateLen])
    else Err (Error_cannot_fit stateLen 2).
Proof.
  intros Hasms stateLen.
  assert (0 <= stateLen) as Hpos by (unfold stateLen; lia).
  unfold Serializer.serializeState, Serializer.serializeLoop.
  rewrite (serializeLoop_spec _ _ _ _ Hasms). cbn [mbind result_bind].
  fold stateLen.
  rewrite Z.add_0_l, app_nil_l. change Serializer.STATE_LEN with 2%nat.
  destruct (Z.ltb_spec stateLen (2 ^ 15)) as [Hlt | Hge].
  - by rewrite num2bin_2 by lia.
  - rewrite num2bin_overflow; [done | | done].
    change (2 ^ 15) with 32768 in *. lia.
Qed.

Lemma serializeState_Ok (state : Serializer.State) r :
  Serializer.serializeState state = Ok r ->
  exists asms, mapM Serializer.serialize state.*2 = Ok asms.
Proof.
  intros H. destruct (mapM Serializer.serialize state.*2) as [asms|e] eqn:Hm;
    [by exists asms|].
  unfold Serializer.serializeState, Serializer.serializeLoop in H.
  by rewrite (serializeLoop_err _ _ _ Hm) in H.
Qed.

(** C10, amended.  [serializeState] adds up, over the values of the state,
    one length byte and the bytes of the serialization.  For a state whose
    numbers are integers below 2^53 in magnitude, every value is
    serialized, and what is returned is the serializations followed by
    that sum on a fixed field of two bytes, little-endian, which is not
    the four bytes of the bodyLength of [buildState]; it is returned for
    every sum below 2^15, and for no other, since [num2bin] throws when
    the sum does not fit the field. *)
Theorem serializeState_length_field (state : Serializer.State) :
  Forall safeValue state.*2 ->
  exists asms,
    mapM Serializer.serialize state.*2 = Ok asms /\
    let stateLen :=
      Z.of_nat (sum_list_with (fun asm => 1 + length asm)%nat asms) in
    (forall r,
       Serializer.serializeState state = Ok r ->
       r = asms ++ [writeUInt16LE stateLen] /\
       BN_fromLE (writeUInt16LE stateLen) = stateLen) /\
    (stateLen < 2 ^ 15 ->
     Serializer.serializeState state = Ok (asms ++ [writeUInt16LE stateLen])) /\
    (2 ^ 15 <= stateLen ->
     Serializer.serializeState state = Err (Error_cannot_fit stateLen 2)) /\
    length (writeUInt16LE stateLen) = Serializer.STATE_LEN /\
    Serializer.STATE_LEN = 2%nat /\ Serializer.STATE_LEN <> 4%nat.
Proof.
  intros Hsafe. destruct (mapM_serialize_safe _ Hsafe) as [asms Hasms].
  exists asms. split; [done|]. intros stateLen.
  assert (0 <= stateLen) as Hpos by (unfold stateLen; lia).
  pose proof (serializeState_eq state asms Hasms) as Heq.
  cbv zeta in Heq. fold stateLen in Heq.
  split; [|split; [|split]]; [| | |done].
  - intros r Hr. rewrite Heq in Hr.
    destruct (Z.ltb_spec stateLen (2 ^ 15)) as [Hlt|]; [|done].
    injection Hr as <-. split; [done|]. apply writeUInt16LE_spec.
    change (2 ^ 16) with 65536. change (2 ^ 15) with 32768 in Hlt. lia.
  - intros Hlt. rewrite Heq. by settle_cmp.
  - intros Hge. rewrite Heq. by settle_cmp.
Qed.

Lemma serializeState_length_field_witness :
  exists asms,
    mapM Serializer.serialize demoState.*2 = Ok asms /\
    let stateLen :=
      Z.of_nat (sum_list_with (fun asm => 1 + length asm)%nat asms) in
    (forall r,
       Serializer.serializeState demoState = Ok r ->
       r = asms ++ [writeUInt16LE stateLen] /\
       BN_fromLE (writeUInt16LE stateLen) = stateLen) /\
    (stateLen < 2 ^ 15 ->
     Serializer.serializeState demoState
     = Ok (asms ++ [writeUInt16LE stateLen])) /\
    (2 ^ 15 <= stateLen ->
     Serializer.serializeState demoState = Err (Error_cannot_fit stateLen 2)) /\
    length (writeUInt16LE stateLen) = Serializer.STATE_LEN /\
    Serializer.STATE_LEN = 2%nat /\ Serializer.STATE_LEN <> 4%nat.
Proof.
  apply (serializeState_length_field demoState).
  repeat constructor.
Defined.

(** C10 as stated fails on a state whose sum does not fit: with one value
    of 65535 bytes the sum is 65536, [num2bin] throws and nothing is
    returned.  Nor is anything returned for a state that holds the number
    2^53, which bn.js refuses. *)
Lemma serializeState_overflow :
  Serializer.serializeState
    [("data", Serializer.SString (replicate (Z.to_nat 65535) 0))]
  = Err (Error_cannot_fit 65536 2) /\
  Serializer.serializeState [("n", Serializer.SNumber (2 ^ 53))]
  = Err Error_assertion_failed.
Proof. split; vm_compute; reflexivity. Qed.

(** ** Locating the state in a script *)

(** The trailer of a script of five bytes or more. *)
Lemma stateLenOf_app s l4 v :
  length l4 = 4%nat -> Stateful.stateLenOf (s ++ l4 ++ [v]) = bin2num l4.
Proof.
  intros H4. unfold Stateful.stateLenOf, Number.
  assert (Z.of_nat (length (s ++ l4 ++ [v])) = Z.of_nat (length s) + 5) as Hsz.
  { rewrite !length_app, H4. simpl. lia. }
  assert (substr (s ++ l4 ++ [v]) (Z.of_nat (length (s ++ l4 ++ [v])) - 5) 5
          = l4 ++ [v]) as ->.
  { rewrite substr_inside by lia. rewrite Hsz.
    replace (Z.to_nat (Z.of_nat (length s) + 5 - 5)) with (length s) by lia.
    rewrite drop_app_length. apply take_ge.
    rewrite length_app, H4. simpl. lia. }
  f_equal. rewrite substr_inside by (rewrite ?length_app, ?H4; simpl; lia).
  change (Z.to_nat 0) with 0%nat. change (Z.to_nat 4) with 4%nat.
  rewrite drop_0, <- H4. apply take_app_length.
Qed.

Lemma stateHexOf_app s l4 v :
  length l4 = 4%nat ->
  Stateful.stateHexOf (s ++ l4 ++ [v])
  = substr (s ++ l4 ++ [v]) (Z.of_nat (length s) - bin2num l4) (bin2num l4).
Proof.
  intros H4. unfold Stateful.stateHexOf. rewrite (stateLenOf_app _ _ _ H4).
  f_equal. rewrite !length_app, H4. simpl. lia.
Qed.

(** When the script holds the whole state, the state is the [stateLen]
    bytes before the trailer, whatever the version byte is. *)
Lemma stateHexOf_whole s l4 v :
  length l4 = 4%nat -> bin2num l4 <= Z.of_nat (length s) ->
  Stateful.stateHexOf (s ++ l4 ++ [v])
  = substr s (Z.of_nat (length s) - bin2num l4) (bin2num l4).
Proof.
  intros H4 Hle. rewrite (stateHexOf_app _ _ _ H4).
  destruct (Z.le_gt_cases (bin2num l4) 0) as [H0 | Hpos].
  - by rewrite !substr_empty.
  - rewrite !substr_inside by (rewrite ?length_app; lia).
    rewrite drop_app_le by lia.
    rewrite take_app_le; [done|]. rewrite length_drop. lia.
Qed.

Lemma stateHexOf_wellformed pre body v :
  Z.of_nat (length body) < 2 ^ 31 ->
  Stateful.stateHexOf
    (pre ++ body ++ writeUInt32LE (Z.of_nat (length body)) ++ [v])
  = body.
Proof.
  intros Hlt. rewrite (app_assoc pre body).
  rewrite stateHexOf_whole; rewrite ?bin2num_writeUInt32LE by lia;
    rewrite ?length_app; try done; try lia.
  rewrite substr_inside by (rewrite ?length_app; lia).
  replace (Z.to_nat (Z.of_nat (length pre + length body) - Z.of_nat (length body)))
    with (length pre) by lia.
  rewrite drop_app_length, Nat2Z.id. by rewrite take_ge.
Qed.

(** When the script is shorter than the state and its trailer, the state
    is read from the end of what there is. *)
Lemma stateHexOf_truncated script :
  let size := Z.of_nat (length script) in
  let stateLen := Stateful.stateLenOf script in
  5 <= size < stateLen + 5 ->
  Stateful.stateHexOf script
  = drop (Z.to_nat (2 * size - 5 - stateLen)) script.
Proof.
  intros size stateLen [H5 Hlt]. unfold Stateful.stateHexOf.
  fold size. fold stateLen.
  rewrite substr_negative by (fold size; lia).
  fold size. f_equal. lia.
Qed.


(** ** Parsing a state *)

Section ParseState.

Context {TypeResolver : Type}.
Variable flatternArg :
  Argument -> TypeResolver -> FlattenOptions -> result Arguments.
Variable deserializeArgfromHex :
  TypeResolver -> Argument -> gmap string hex -> result Argument.
Variable contract : Stateful.AbstractContract TypeResolver.

Local Abbreviation parse :=
  (Stateful.parseStateHex flatternArg deserializeArgfromHex contract).

(** C5, amended.  [parseStateHex] reads the version byte and does not
    look at it: on a script that holds its whole state ([stateLen]
    bytes [s] or more before a trailer of a 4-byte length [l4] and a
    version byte), any other version byte gives the same result, be it
    a state or an error; no version is refused. *)
Theorem parseStateHex_version_unchecked s l4 v v' :
  length l4 = 4%nat ->
  bin2num l4 <= Z.of_nat (length s) ->
  parse (s ++ l4 ++ [v]) = parse (s ++ l4 ++ [v']).
Proof.
  intros H4 Hle. unfold Stateful.parseStateHex.
  by rewrite !stateHexOf_whole.
Qed.

(** A script of five bytes or more ends in a trailer. *)
Lemma script_trailer (script : hex) :
  (5 <= length script)%nat ->
  exists s l4 v, script = s ++ l4 ++ [v] /\ length l4 = 4%nat.
Proof.
  intros H5.
  destruct (drop (length script - 5) script)
    as [|a [|b [|c [|d [|v [|]]]]]] eqn:Hd;
    (pose proof (f_equal length Hd) as Hl; rewrite length_drop in Hl;
     simpl in Hl; try lia).
  exists (take (length script - 5) script), [a; b; c; d], v.
  split; [|done]. change ([a; b; c; d] ++ [v]) with [a; b; c; d; v].
  rewrite <- Hd. by rewrite take_drop.
Qed.

(** C6, amended.  [parseStateHex] does not compare the length of the
    script with [stateLen + 5].  On a script of five bytes or more that
    is shorter than that, it walks the end of the script instead: its
    last [stateLen + 5 - size] bytes, or all of it when that is more
    than its size.  The result is that of a well-formed script with
    this body; no truncation is reported. *)
Theorem parseStateHex_truncated script :
  let size := Z.of_nat (length script) in
  let stateLen := Stateful.stateLenOf script in
  let body := drop (Z.to_nat (2 * size - 5 - stateLen)) script in
  Forall is_byte script ->
  5 <= size < stateLen + 5 ->
  parse script = parse (body ++ writeUInt32LE (Z.of_nat (length body)) ++ [0]) /\
  Z.of_nat (length body) = Z.min size (stateLen + 5 - size).
Proof.
  intros size stateLen body Hbytes Hsize.
  assert (Z.of_nat (length body) = Z.min size (stateLen + 5 - size)) as Hlen.
  { unfold body. rewrite length_drop. fold size. lia. }
  split; [|done].
  assert (stateLen < 2 ^ 31) as Hbound.
  { destruct (script_trailer script) as (s & l4 & v & Hs & H4); [lia|].
    unfold stateLen. rewrite Hs, (stateLenOf_app _ _ _ H4).
    apply bin2num_4_bound; [done|].
    rewrite Hs in Hbytes. apply Forall_app in Hbytes as [_ Hbytes].
    by apply Forall_app in Hbytes as [Hbytes _]. }
  unfold Stateful.parseStateHex.
  rewrite (stateHexOf_truncated script) by (fold size; fold stateLen; lia).
  fold size. fold stateLen. fold body.
  pose proof (stateHexOf_wellformed [] body 0 ltac:(lia)) as Hw.
  rewrite app_nil_l in Hw. by rewrite Hw.
Qed.

(** The two ways in which a byte of the state is read as a boolean. *)
Lemma readState_isGenesis g br isGenesis args :
  Stateful.readState flatternArg deserializeArgfromHex contract (g :: br)
    = Ok (isGenesis, args) ->
  isGenesis = (g =? 1).
Proof.
  unfold Stateful.readState. simpl.
  destruct (Stateful.flatMap _ _) as [dummyArgs|]; simpl; [|done].
  destruct (Stateful.readLeaves dummyArgs ∅ br) as [[m br']|]; simpl; [|done].
  destruct (mapM _ _); simpl; [|done].
  by intros [= <- _].
Qed.

Lemma readLeaf_bool param m b br :
  arg_type param = ScryptType.BOOL ->
  Stateful.readLeaf param m (b :: br)
  = Ok (<[template_key (arg_name param) := if b =? 1 then [1] else [0]]> m, br).
Proof. intros Ht. unfold Stateful.readLeaf. by rewrite Ht. Qed.

End ParseState.

(** C5 as stated fails: a script whose version byte is 7 is parsed. *)
Lemma parseStateHex_accepts_version_7 :
  parseStateHex counterContract [1; 1; 5; 1; 4; 0; 0; 0; 7]
  = Ok (true, counterState).
Proof. vm_compute. reflexivity. Qed.

Lemma parseStateHex_version_unchecked_witness :
  parseStateHex counterContract ([1; 1; 5; 1] ++ [4; 0; 0; 0] ++ [7])
  = parseStateHex counterContract ([1; 1; 5; 1] ++ [4; 0; 0; 0] ++ [0]).
Proof.
  refine (parseStateHex_version_unchecked flatternArg deserializeArgfromHex
            counterContract [1; 1; 5; 1] [4; 0; 0; 0] 7 0 _ _);
    [reflexivity | vm_compute; discriminate].
Defined.

(** C6 as stated fails: the six bytes [01 03 01 00 00 01] end in a
    trailer that announces a state of 259 bytes; they are parsed, the
    state being read from the six bytes themselves. *)
Lemma parseStateHex_accepts_truncated :
  Stateful.stateLenOf [1; 3; 1; 0; 0; 1] = 259 /\
  parseStateHex counterContract [1; 3; 1; 0; 0; 1]
  = Ok (true, [mkArg "counter" ScryptType.INT (Int 1);
               mkArg "done" ScryptType.BOOL (Bool true)]).
Proof. split; vm_compute; reflexivity. Qed.

Lemma parseStateHex_truncated_witness :
  parseStateHex counterContract [1; 3; 1; 0; 0; 1]
  = parseStateHex counterContract
      ([1; 3; 1; 0; 0; 1] ++ writeUInt32LE 6 ++ [0]).
Proof.
  refine (proj1 (parseStateHex_truncated flatternArg deserializeArgfromHex
            counterContract [1; 3; 1; 0; 0; 1] _ _)).
  - repeat constructor; unfold is_byte; lia.
  - change (Stateful.stateLenOf [1; 3; 1; 0; 0; 1]) with 259. simpl. lia.
Defined.

(** ** The walk over the leaves *)

Lemma deserializer_bool_byte b :
  Stateful.deserializer ScryptType.BOOL (if b =? 1 then [1] else [0])
  = Ok (Bool (b =? 1)).
Proof. by destruct (b =? 1). Qed.

Lemma deserializeArgfromHex_leaf resolver name type x m h v :
  m !! template_key name = Some h ->
  Stateful.deserializer (resolver type) h = Ok v ->
  deserializeArgfromHex resolver (mkArg name type x) m
  = Ok (mkArg name (resolver type) v).
Proof.
  intros Hm Hv. unfold deserializeArgfromHex, flatternArg. simpl.
  rewrite Hm. simpl. rewrite Hv. done.
Qed.

Lemma deserializeArgfromHex_leaf_err resolver name type x m h e :
  m !! template_key name = Some h ->
  Stateful.deserializer (resolver type) h = Err e ->
  deserializeArgfromHex resolver (mkArg name type x) m = Err e.
Proof.
  intros Hm Hv. unfold deserializeArgfromHex, flatternArg. simpl.
  rewrite Hm. simpl. rewrite Hv. done.
Qed.

Lemma readLeaf_push name type dummy (data : list Z) h :
  String.eqb type ScryptType.BOOL = false ->
  data <> [] ->
  Script_toHex (Script_fromASM data) = Ok h ->
  readsAs (mkArg name type dummy) h h.
Proof.
  intros Ht Hne H m rest. unfold Stateful.readLeaf, bind_reader.
  cbn [arg_type arg_name]. rewrite Ht.
  rewrite (readBytes_push data h rest Hne H).
  destruct data as [|d data]; [done|]. by rewrite H.
Qed.

Lemma readLeaf_bool2hex name dummy b :
  readsAs (mkArg name ScryptType.BOOL dummy) (Stateful.bool2hex b) (Stateful.bool2hex b).
Proof. intros m rest. by destruct b. Qed.

(** A push of no data: the marker 00 of the empty byte string, or an
    opcode OP_0.  The walk stores the empty string for it. *)
Lemma readLeaf_empty name type dummy :
  String.eqb type ScryptType.BOOL = false ->
  readsAs (mkArg name type dummy) [0] [].
Proof.
  intros Ht m rest. unfold Stateful.readLeaf, bind_reader.
  cbn [arg_type arg_name]. by rewrite Ht.
Qed.

(** A leaf of a recoverable value: its encoding is stored as it is by the
    walk, and decoded to the value. *)
Lemma leaf_recovered type x h name dummy :
  Recoverable type x ->
  Stateful.toHex x = Ok h ->
  readsAs (mkArg name type dummy) h h /\
  Stateful.deserializer type h = Ok x.
Proof.
  intros Hrec Hx. destruct Hrec as [b | n | n | kind b Hkind Hb].
  - injection Hx as <-. split; [apply readLeaf_bool2hex | by destruct b].
  - change (Stateful.toHex (Int n)) with (Stateful.int2hex n) in Hx.
    destruct (int2hex_push n h Hx) as (data & Hne & Hpush). split.
    + by apply (readLeaf_push _ _ _ data).
    + change (Stateful.deserializer ScryptType.INT h)
        with (Int <$> Stateful.hex2int h).
      by rewrite (hex2int_int2hex n h Hx).
  - change (Stateful.toHex (PrivKey n)) with (Stateful.int2hex n) in Hx.
    destruct (int2hex_push n h Hx) as (data & Hne & Hpush). split.
    + by apply (readLeaf_push _ _ _ data).
    + change (Stateful.deserializer ScryptType.PRIVKEY h)
        with (PrivKey <$> Stateful.hex2int h).
      by rewrite (hex2int_int2hex n h Hx).
  - assert (Stateful.bytes2hex b = Ok h) as Hb2.
    { unfold byteKinds in Hkind. rewrite !elem_of_cons in Hkind.
      destruct Hkind as [-> | [-> | [-> | [-> | [-> | [-> | [-> | [-> | Hk]]]]]]]];
        [done .. | by apply elem_of_nil in Hk]. }
    pose proof (hex2bytes_bytes2hex b h Hb Hb2) as Hdec.
    assert (Script_toHex (Script_fromASM b) = Ok h) as Hpush.
    { unfold Stateful.bytes2hex in Hb2. by rewrite bool_decide_eq_false_2 in Hb2. }
    unfold byteKinds in Hkind. rewrite !elem_of_cons in Hkind.
    destruct Hkind as [-> | [-> | [-> | [-> | [-> | [-> | [-> | [-> | Hk]]]]]]]];
      [ .. | by apply elem_of_nil in Hk];
      (split; [by apply (readLeaf_push _ _ _ b) | ]).
    + change (Stateful.deserializer ScryptType.BYTES h) with (Bytes <$> Stateful.hex2bytes h).
      by rewrite Hdec.
    + change (Stateful.deserializer ScryptType.PUBKEY h) with (PubKey <$> Stateful.hex2bytes h).
      by rewrite Hdec.
    + change (Stateful.deserializer ScryptType.SIG h) with (Sig <$> Stateful.hex2bytes h).
      by rewrite Hdec.
    + change (Stateful.deserializer ScryptType.RIPEMD160 h) with (Ripemd160 <$> Stateful.hex2bytes h).
      by rewrite Hdec.
    + change (Stateful.deserializer ScryptType.SHA1 h) with (Sha1 <$> Stateful.hex2bytes h).
      by rewrite Hdec.
    + change (Stateful.deserializer ScryptType.SHA256 h) with (Sha256 <$> Stateful.hex2bytes h).
      by rewrite Hdec.
    + change (Stateful.deserializer ScryptType.SIGHASHPREIMAGE h)
        with (SigHashPreimage <$> Stateful.hex2bytes h).
      by rewrite Hdec.
    + change (Stateful.deserializer ScryptType.OPCODETYPE h)
        with (OpCodeType <$> Stateful.hex2bytes h).
      by rewrite Hdec.
Qed.

Lemma mapM_Ok {A B} (f : A -> result B) xs ys :
  Forall2 (fun x y => f x = Ok y) xs ys -> mapM f xs = Ok ys.
Proof.
  induction 1 as [|x y xs ys Hxy _ IH]; [done|].
  cbn [mapM]. rewrite Hxy. cbn. rewrite IH. done.
Qed.

Lemma mapM_Ok_inv {A B} (f : A -> result B) xs ys :
  mapM f xs = Ok ys -> Forall2 (fun x y => f x = Ok y) xs ys.
Proof.
  revert ys. induction xs as [|x xs IH]; intros ys H; cbn [mapM] in H.
  - injection H as <-. constructor.
  - destruct (f x) as [y|] eqn:Hfx; [|done]. cbn in H.
    destruct (mapM f xs) as [ys'|]; [|done]. cbn in H.
    injection H as <-. constructor; [done | by apply IH].
Qed.

Lemma template_key_inj : Inj (=) (=) template_key.
Proof.
  intros a b H. unfold template_key in H. injection H as H.
  revert b H. induction a as [|c a IH]; intros [|d b] H; simpl in H; try done.
  - injection H as _ H. by destruct b.
  - injection H as _ H. by destruct a.
  - injection H as -> H. f_equal. by apply IH.
Qed.

(** The walk of the parser stores, leaf by leaf, what each leaf reads. *)
Lemma readLeaves_walk leaves wires stored m rest :
  Forall3 readsAs leaves wires stored ->
  Stateful.readLeaves leaves m (concat wires ++ rest)
  = Ok (storeAll leaves stored m, rest).
Proof.
  intros H. revert m. induction H as [|p w s leaves wires stored Hp _ IH]; intros m.
  - done.
  - cbn [Stateful.readLeaves concat storeAll]. unfold bind_reader.
    rewrite <- app_assoc, Hp. apply IH.
Qed.

Lemma storeAll_other leaves stored m k :
  k ∉ (fun p => template_key (arg_name p)) <$> leaves ->
  storeAll leaves stored m !! k = m !! k.
Proof.
  revert stored m. induction leaves as [|p leaves IH]; intros stored m Hk; [done|].
  destruct stored as [|h stored]; [done|]. cbn [storeAll].
  rewrite fmap_cons, not_elem_of_cons in Hk. destruct Hk as [Hne Hk].
  rewrite IH by done. by rewrite lookup_insert_ne.
Qed.

Lemma storeAll_lookup leaves stored m i p h :
  NoDup (arg_name <$> leaves) ->
  leaves !! i = Some p -> stored !! i = Some h ->
  storeAll leaves stored m !! template_key (arg_name p) = Some h.
Proof.
  revert stored m i. induction leaves as [|q leaves IH]; intros stored m i Hnd Hp Hh;
    [done|].
  destruct stored as [|s stored]; [done|].
  rewrite fmap_cons, NoDup_cons in Hnd. destruct Hnd as [Hq Hnd].
  cbn [storeAll]. destruct i as [|i]; simpl in Hp, Hh.
  - injection Hp as ->. injection Hh as ->.
    rewrite storeAll_other; [apply lookup_insert_eq|].
    intros Hin. apply Hq. apply list_elem_of_fmap in Hin as (p' & Hk & Hin).
    apply template_key_inj in Hk. rewrite Hk. by apply list_elem_of_fmap_2.
  - by apply (IH _ _ i).
Qed.

Lemma flatMap_dummy props (resolver : LeafResolver) :
  Stateful.flatMap
    (fun p => flatternArg (with_value p (JsBoolean false)) resolver
                (mkOptions true true)) props
  = Ok (dummyLeaf resolver <$> props).
Proof.
  unfold Stateful.flatMap.
  assert (mapM (fun p => flatternArg (with_value p (JsBoolean false)) resolver
                          (mkOptions true true)) props
          = Ok ((fun p => [dummyLeaf resolver p]) <$> props)) as ->.
  { apply mapM_Ok. induction props; constructor; done. }
  cbn. f_equal. induction props as [|p props IH]; [done|].
  cbn. by rewrite IH.
Qed.

Lemma flatMap_args (args : Arguments) (resolver : LeafResolver) :
  Stateful.flatMap
    (fun arg => flatternArg arg resolver (mkOptions true false)) args
  = Ok ((fun a => mkArg (arg_name a) (resolver (arg_type a)) (arg_value a)) <$> args).
Proof.
  unfold Stateful.flatMap.
  assert (mapM (fun arg => flatternArg arg resolver (mkOptions true false)) args
          = Ok ((fun a => [mkArg (arg_name a) (resolver (arg_type a)) (arg_value a)])
                  <$> args)) as ->.
  { apply mapM_Ok. induction args; constructor; done. }
  cbn. f_equal. induction args as [|p args IH]; [done|].
  cbn. by rewrite IH.
Qed.

(** The parse of a well-formed script, from what each leaf reads and how
    what it stored is decoded. *)
Lemma parseStateHex_leaves pre props (resolver : LeafResolver)
    g wires stored decoded v :
  NoDup (param_name <$> props) ->
  Forall3 readsAs (dummyLeaf resolver <$> props) wires stored ->
  Forall3 (fun p h x => Stateful.deserializer (resolver (param_type p)) h = Ok x)
    props stored decoded ->
  Z.of_nat (length (g :: concat wires)) < 2 ^ 31 ->
  parseStateHex (Stateful.mkContract props resolver)
    (pre ++ (g :: concat wires)
         ++ writeUInt32LE (Z.of_nat (length (g :: concat wires))) ++ [v])
  = Ok (g =? 1,
        zip_with (fun p x => mkArg (param_name p) (resolver (param_type p)) x)
          props decoded).
Proof.
  intros Hnd Hread Hdec Hlen.
  unfold parseStateHex, Stateful.parseStateHex.
  rewrite stateHexOf_wellformed by done.
  unfold Stateful.readState. cbn [readUInt8 mbind result_bind].
  cbn [Stateful.stateProps Stateful.resolver].
  rewrite flatMap_dummy. cbn [mbind result_bind].
  pose proof (readLeaves_walk _ _ _ ∅ [] Hread) as Hwalk.
  rewrite app_nil_r in Hwalk. rewrite Hwalk. cbn [mbind result_bind].
  set (M := storeAll (dummyLeaf resolver <$> props) stored ∅).
  erewrite mapM_Ok; [done|].
  pose proof (Forall3_length_lm _ _ _ _ Hdec) as Hl1.
  pose proof (Forall3_length_lr _ _ _ _ Hdec) as Hl2.
  apply Forall2_same_length_lookup_2.
  { rewrite length_zip_with. lia. }
  intros i p a Hp Ha.
  apply lookup_zip_with_Some in Ha as (p' & x & -> & Hp' & Hx).
  rewrite Hp in Hp'. injection Hp' as <-.
  destruct (stored !! i) as [h|] eqn:Hh.
  2: { apply lookup_ge_None in Hh. apply lookup_lt_Some in Hp. lia. }
  pose proof (Forall3_lookup_lmr _ _ _ _ _ _ _ _ Hdec Hp Hh Hx) as Hd.
  apply (deserializeArgfromHex_leaf resolver _ _ _ M h x); [|done].
  apply (storeAll_lookup _ _ _ i (dummyLeaf resolver p)); try done.
  - by rewrite <- list_fmap_compose.
  - by rewrite list_lookup_fmap, Hp.
Qed.

Lemma concat_singletons (bs : list Z) : concat ((fun b => [b]) <$> bs) = bs.
Proof. induction bs as [|b bs IH]; [done|]. cbn. by rewrite IH. Qed.

(** C7, amended.  A byte of the state that is read as a boolean, the
    leading isGenesis byte [g] or the byte of a Boolean leaf, is true when
    it is 0x01 and false for every other value: whatever the bytes [bs] of
    a contract whose properties are all Boolean, they are parsed, and no
    value of such a byte makes the parse fail. *)
Theorem parseStateHex_bool_bytes pre props (resolver : LeafResolver) g bs v :
  NoDup (param_name <$> props) ->
  Forall (fun p => resolver (param_type p) = ScryptType.BOOL) props ->
  length bs = length props ->
  Z.of_nat (length (g :: bs)) < 2 ^ 31 ->
  parseStateHex (Stateful.mkContract props resolver)
    (pre ++ (g :: bs) ++ writeUInt32LE (Z.of_nat (length (g :: bs))) ++ [v])
  = Ok (g =? 1,
        zip_with (fun p b => mkArg (param_name p) ScryptType.BOOL (Bool (b =? 1)))
          props bs).
Proof.
  intros Hnd Hbool Hlen Hfit.
  pose proof (parseStateHex_leaves pre props resolver g
                ((fun b => [b]) <$> bs)
                ((fun b : Z => if b =? 1 then [1] else [0]) <$> bs)
                ((fun b => Bool (b =? 1)) <$> bs) v Hnd) as H.
  rewrite concat_singletons in H. rewrite H; clear H; try done.
  - f_equal. f_equal. clear Hnd Hfit. revert bs Hlen.
    induction Hbool as [|p props Hp _ IH]; intros [|b bs] Hlen; try done.
    cbn. rewrite Hp. f_equal. apply IH. by injection Hlen.
  - clear Hnd Hfit. revert bs Hlen.
    induction Hbool as [|p props Hp _ IH]; intros [|b bs] Hlen; try done.
    + constructor.
    + cbn. constructor; [|apply IH; by injection Hlen].
      intros m rest. by apply readLeaf_bool.
  - clear Hnd Hfit. revert bs Hlen.
    induction Hbool as [|p props Hp _ IH]; intros [|b bs] Hlen; try done.
    + constructor.
    + cbn. constructor; [|apply IH; by injection Hlen].
      rewrite Hp. apply deserializer_bool_byte.
Qed.


Lemma parseStateHex_bool_bytes_witness :
  parseStateHex
    (Stateful.mkContract [mkParam "open" "bool"; mkParam "done" "bool"]
       (fun type => type))
    ([118; 169] ++ [2; 255; 1] ++ writeUInt32LE 3 ++ [0])
  = Ok (false, [mkArg "open" "bool" (Bool false);
                mkArg "done" "bool" (Bool true)]).
Proof.
  refine (parseStateHex_bool_bytes [118; 169]
            [mkParam "open" "bool"; mkParam "done" "bool"] (fun type => type)
            2 [255; 1] 0 _ _ _ _).
  - apply (bool_decide_unpack _). vm_compute. exact I.
  - repeat constructor.
  - reflexivity.
  - reflexivity.
Defined.

(** C7 as stated fails: a body of the bytes 02 and ff is parsed, and both
    are read as false. *)
Lemma parseStateHex_accepts_bad_bool :
  parseStateHex (Stateful.mkContract [mkParam "done" "bool"] (fun t => t))
    [2; 255; 2; 0; 0; 0; 0]
  = Ok (false, [mkArg "done" "bool" (Bool false)]).
Proof. vm_compute. reflexivity. Qed.

(** ** The round trip *)

(** The state of section 8, [counter = 5, done = true] at genesis: a body
    of four bytes, the length 4 and the version 0; parsing gives the state
    back. *)
Example counter_state_roundtrip :
  buildState counterState true (fun type => type)
    = Ok [1; 1; 5; 1; 4; 0; 0; 0; 0] /\
  parseStateHex counterContract [1; 1; 5; 1; 4; 0; 0; 0; 0]
    = Ok (true, counterState).
Proof. split; reflexivity. Qed.

(** The states that are parsed back, after any script [pre]: primitive
    properties of distinct names with recoverable values. *)
Lemma roundtrip_recoverable pre (args : Arguments) isGenesis blob :
  NoDup (arg_name <$> args) ->
  Forall (fun a => Recoverable (arg_type a) (arg_value a)) args ->
  buildState args isGenesis (fun type => type) = Ok blob ->
  parseStateHex
    (Stateful.mkContract ((fun a => mkParam (arg_name a) (arg_type a)) <$> args)
       (fun type => type))
    (pre ++ blob)
  = Ok (isGenesis, args).
Proof.
  intros Hnd Hrec Hbuild.
  assert ((fun a => mkArg (arg_name a) (arg_type a) (arg_value a)) <$> args = args) as Heta.
  { clear. induction args as [|[] args IH]; [done|]. cbn. by rewrite IH. }
  unfold buildState, Stateful.buildState in Hbuild.
  rewrite flatMap_args, Heta in Hbuild. cbn [mbind result_bind] in Hbuild.
  destruct args as [|a0 args0] eqn:Hargs; [done|]. rewrite <- Hargs in *.
  replace (length args <=? 0)%nat with false in Hbuild by (by rewrite Hargs).
  unfold Stateful.state_body in Hbuild. cbn [Stateful.toHex mbind result_bind] in Hbuild.
  destruct (mapM (fun a => Stateful.toHex (arg_value a)) args) as [encs|] eqn:Henc;
    [|done].
  cbn [mbind result_bind] in Hbuild.
  set (g := if isGenesis then 1 else 0).
  assert (Stateful.bool2hex isGenesis ++ concat encs = g :: concat encs) as Hbody
    by (by destruct isGenesis).
  rewrite Hbody in Hbuild.
  destruct (num2bin (Z.of_nat (length (g :: concat encs))) 4) as [len|] eqn:Hnum;
    [|done].
  apply num2bin_4_Ok in Hnum as Hfit; [|simpl; lia].
  rewrite num2bin_4 in Hnum by lia. injection Hnum as <-.
  cbn in Hbuild. injection Hbuild as <-.
  apply mapM_Ok_inv in Henc.
  pose proof (parseStateHex_leaves pre
    ((fun a => mkParam (arg_name a) (arg_type a)) <$> args) (fun type => type)
    g encs encs (arg_value <$> args) 0) as H.
  assert (Ok (g =? 1,
              zip_with (fun p x => mkArg (param_name p) (param_type p) x)
                ((fun a => mkParam (arg_name a) (arg_type a)) <$> args)
                (arg_value <$> args))
          = Ok (isGenesis, args)) as Hres.
  { f_equal. f_equal; [by destruct isGenesis|].
    clear. induction args as [|[] args IH]; [done|]. cbn. by rewrite IH. }
  rewrite <- Hres. apply H; try done.
  - by rewrite <- list_fmap_compose.
  - clear Hnd Hargs Hbody Hfit Hres H Heta.
    induction Henc as [|a h args' encs' Ha Henc IH]; [constructor|].
    apply Forall_cons in Hrec as [Hr Hrec].
    cbn. constructor; [|by apply IH].
    by apply (leaf_recovered (arg_type a) (arg_value a)).
  - clear Hnd Hargs Hbody Hfit Hres H Heta.
    induction Henc as [|a h args' encs' Ha Henc IH]; [constructor|].
    apply Forall_cons in Hrec as [Hr Hrec].
    cbn. constructor; [|by apply IH].
    by apply (leaf_recovered (arg_type a) (arg_value a) h "" JsUndefined).
Qed.

(** So for the state of the counter, behind the code of a contract. *)
Example counter_state_recovered :
  parseStateHex counterContract
    ([118; 169; 20] ++ [1; 1; 5; 1; 4; 0; 0; 0; 0])
  = Ok (true, counterState).
Proof.
  apply (roundtrip_recoverable [118; 169; 20] counterState true).
  - apply (bool_decide_unpack _). vm_compute. exact I.
  - repeat constructor.
  - reflexivity.
Qed.

(** C1: the failing input.  A contract with one ByteString property whose
    value is the empty string.  The builder writes the marker 00 for it;
    the parser reads the marker as a push of no data and stores the empty
    string for the leaf, not 00; the decoder, which knows 00, finds no
    chunk in the empty string.  So it is for every name, prefix and flag. *)
Theorem empty_bytes_not_recovered pre name isGenesis :
  let contract :=
    Stateful.mkContract [mkParam name ScryptType.BYTES] (fun type => type) in
  let args := [mkArg name ScryptType.BYTES (Bytes [])] in
  let blob := Stateful.bool2hex isGenesis ++ [0] ++ [2; 0; 0; 0] ++ [0] in
  Stateful.toHex (Bytes []) = Ok [0] /\
  buildState args isGenesis (fun type => type) = Ok blob /\
  parseStateHex contract (pre ++ blob) = Err TypeError /\
  Stateful.hex2bytes [] = Err TypeError /\
  Stateful.hex2bytes [0] = Ok [].
Proof.
  intros contract args blob.
  split; [done|]. split; [by destruct isGenesis|]. split; [|done].
  set (g := if isGenesis then 1 else 0).
  assert (blob = [g; 0] ++ writeUInt32LE (Z.of_nat (length [g; 0])) ++ [0]) as ->
    by (by destruct isGenesis).
  unfold parseStateHex, Stateful.parseStateHex.
  rewrite stateHexOf_wellformed by done.
  unfold Stateful.readState, contract.
  cbn [readUInt8 mbind result_bind Stateful.stateProps Stateful.resolver].
  rewrite flatMap_dummy.
  cbn [mbind result_bind fmap list_fmap Stateful.readLeaves].
  unfold bind_reader.
  pose proof (readLeaf_empty name ScryptType.BYTES (JsBoolean false) eq_refl ∅ [])
    as Hread.
  cbn [app] in Hread. unfold dummyLeaf. cbn [param_name param_type].
  rewrite Hread. unfold with_value.
  cbn [ret_reader mbind result_bind mapM param_name param_type].
  erewrite deserializeArgfromHex_leaf_err;
    [done | apply lookup_insert_eq | done].
Qed.

(** The same defect stops an Integer that was pushed as OP_0. *)
Example op0_integer_not_parsed :
  parseStateHex counterContract [1; 0; 1; 3; 0; 0; 0; 0] = Err TypeError.
Proof. reflexivity. Qed.

(** The state of a SigHashType 0xc1 is not parsed. *)
Example sighashtype_state_not_recovered :
  let contract :=
    Stateful.mkContract [mkParam "flag" ScryptType.SIGHASHTYPE] (fun type => type) in
  let args := [mkArg "flag" ScryptType.SIGHASHTYPE (SigHashLiteral 193)] in
  buildState args false (fun type => type) = Ok [0; 1; 193; 3; 0; 0; 0; 0] /\
  parseStateHex contract [0; 1; 193; 3; 0; 0; 0; 0]
    = Err (Error_unsupported_SigHashType (-65)).
Proof. split; vm_compute; reflexivity. Qed.

(** * Further properties *)

(** ** The leaf codec, both ways *)

(** X1.  Every Integer that [int2hex] encodes is decoded to itself by
    [hex2int], and so by [deserializer] for the kinds int and PrivKey:
    zero, positive and negative numbers of any size. *)
Theorem hex2int_inverts_int2hex n h :
  Stateful.int2hex n = Ok h ->
  Stateful.hex2int h = Ok n /\
  Stateful.deserializer ScryptType.INT h = Ok (Int n) /\
  Stateful.deserializer ScryptType.PRIVKEY h = Ok (PrivKey n).
Proof.
  intros H. pose proof (hex2int_int2hex n h H) as Hd.
  split; [done|]. split.
  - change (Stateful.deserializer ScryptType.INT h)
      with (Int <$> Stateful.hex2int h).
    by rewrite Hd.
  - change (Stateful.deserializer ScryptType.PRIVKEY h)
      with (PrivKey <$> Stateful.hex2int h).
    by rewrite Hd.
Qed.

Lemma hex2int_inverts_int2hex_witness :
  Stateful.hex2int [2; 44; 129] = Ok (-300) /\
  Stateful.deserializer ScryptType.INT [2; 44; 129] = Ok (Int (-300)) /\
  Stateful.deserializer ScryptType.PRIVKEY [2; 44; 129] = Ok (PrivKey (-300)).
Proof. apply (hex2int_inverts_int2hex (-300) [2; 44; 129]). reflexivity. Defined.

(** The sign-and-magnitude form of a number below 2^599 in magnitude has
    at most 75 bytes. *)
Lemma BN_toSM_little_length n :
  n <> 0 -> Z.abs n < 2 ^ 599 ->
  (1 <= length (BN_toSM_little n) <= 75)%nat.
Proof.
  intros Hn Hb.
  assert (forall p, 0 < p -> p < 2 ^ 599 ->
          (1 <= length (BN_toSM_little p) <= 75)%nat /\
          length (BN_toSM_little (- p)) = length (BN_toSM_little p)) as Hpos.
  { intros p Hp Hlt.
    destruct (BN_toSM_little_shape p Hp) as (xs & y & E1 & E2 & _ & _ & _ & Hle).
    rewrite E1, E2, !length_app. simpl. split; [|done].
    split; [lia|].
    assert (256 ^ Z.of_nat (length xs) < 256 ^ Z.of_nat 75) as Hpow.
    { change (256 ^ Z.of_nat 75) with (2 ^ 600).
      change (2 ^ 600) with (2 * 2 ^ 599). lia. }
    apply pow256_lt in Hpow. lia. }
  destruct (Z.lt_trichotomy n 0) as [Hneg | [-> | Hp]]; [|done|].
  - destruct (Hpos (- n)) as [H1 H2]; [lia | lia |].
    rewrite Z.opp_involutive in H2. by rewrite H2.
  - apply Hpos; lia.
Qed.

(** X2.  An Integer below 2^599 in magnitude is always encoded, as one
    length byte followed by its bytes: the byte 00 for zero and the
    sign-and-magnitude form otherwise, 1 to 75 bytes that [bin2num] reads
    back as the number.  No OP_PUSHDATA prefix is written for it. *)
Theorem int2hex_direct_push n :
  Z.abs n < 2 ^ 599 ->
  let data := if n =? 0 then [0] else BN_toSM_little n in
  Stateful.int2hex n = Ok (Z.of_nat (length data) :: data) /\
  (1 <= length data <= 75)%nat /\
  bin2num data = n.
Proof.
  intros Hb data.
  assert ((1 <= length data <= 75)%nat) as Hlen.
  { unfold data. destruct (Z.eqb_spec n 0) as [-> | Hn]; [simpl; lia|].
    by apply BN_toSM_little_length. }
  split; [|split; [done|]].
  - unfold Stateful.int2hex. fold data. unfold Script_fromASM.
    assert ((Z.of_nat (length data) <? OP_PUSHDATA1) = true) as Hlt
      by (apply Z.ltb_lt; unfold OP_PUSHDATA1; lia).
    rewrite Hlt.
    cbn [Script_toHex Chunk_toBuffer chunk_opcodenum chunk_buf chunk_len].
    rewrite Hlt. cbn. by rewrite app_nil_r.
  - unfold data. destruct (Z.eqb_spec n 0) as [-> | Hn]; [done|].
    by apply bin2num_toSM.
Qed.

Lemma int2hex_direct_push_witness :
  Stateful.int2hex 1000 = Ok (Z.of_nat (length [232; 3]) :: [232; 3]) /\
  (1 <= length [232; 3] <= 75)%nat /\
  bin2num [232; 3] = 1000.
Proof. apply (int2hex_direct_push 1000). reflexivity. Defined.

(** X3.  Every byte string that [bytes2hex] encodes is decoded to itself
    by [hex2bytes], the empty one included. *)
Theorem hex2bytes_inverts_bytes2hex b h :
  Stateful.bytes2hex b = Ok h -> Stateful.hex2bytes h = Ok b.
Proof.
  intros H. destruct b as [|b0 b].
  - by injection H as <-.
  - by apply hex2bytes_bytes2hex.
Qed.

Lemma hex2bytes_inverts_bytes2hex_witness :
  Stateful.hex2bytes [3; 170; 187; 204] = Ok [170; 187; 204].
Proof.
  apply (hex2bytes_inverts_bytes2hex [170; 187; 204]). reflexivity.
Defined.

(** X4.  The encoder [toHex] goes by the JavaScript type of a value and
    the decoder [deserializer] by the name of its kind; they agree on every
    boolean, Integer and PrivKey, on every byte string of the eight kinds
    carried as bytes, the empty one included: what [toHex] wrote for such
    a value, [deserializer] decodes to the value. *)
Theorem deserializer_inverts_toHex type x h :
  Decodable type x ->
  Stateful.toHex x = Ok h ->
  Stateful.deserializer type h = Ok x.
Proof.
  intros [type' x' Hrec | kind Hkind] Hx.
  - by apply (leaf_recovered type' x' h "" JsUndefined).
  - unfold byteKinds in Hkind. rewrite !elem_of_cons in Hkind.
    repeat (destruct Hkind as [-> | Hkind]);
      [ .. | by apply elem_of_nil in Hkind]; by injection Hx as <-.
Qed.

Lemma deserializer_inverts_toHex_witness :
  Stateful.deserializer ScryptType.SHA256 [0] = Ok (Sha256 []).
Proof.
  apply (deserializer_inverts_toHex ScryptType.SHA256 (Sha256 []) [0]);
    [|reflexivity].
  apply dec_empty. apply (bool_decide_unpack _). vm_compute. exact I.
Defined.

(** What the decoders of the twelve kinds can throw. *)
Lemma fromBuffer_loop_Ok fuel br : exists s, fromBuffer_loop fuel br = Ok s.
Proof.
  revert br. induction fuel as [|fuel IH]; intros [|b br]; try by eexists.
  cbn [fromBuffer_loop].
  destruct (readChunk (b :: br)) as [[c br']|e] eqn:Hc.
  - cbn. destruct (IH br') as [cs ->]. by eexists.
  - exfalso. revert Hc. unfold readChunk, readPushData, read, readUInt8,
      readUInt16LE, readUInt32LE, bind_reader, ret_reader; cbn.
    repeat (case_match; try done).
Qed.

Lemma chunk0_buf_error s e : chunk0_buf s = Err e -> e = TypeError.
Proof.
  destruct s as [|c s]; [by intros [= <-]|]. unfold chunk0_buf.
  destruct (chunk_buf c); [done | by intros [= <-]].
Qed.

Lemma hex2int_error h e : Stateful.hex2int h = Err e -> e = TypeError.
Proof.
  unfold Stateful.hex2int, Script_fromHex.
  destruct (fromBuffer_loop_Ok (length h) h) as [s ->].
  cbn. destruct (chunk0_buf s) eqn:Hc; [done|]. cbn. intros [= <-].
  by apply (chunk0_buf_error s).
Qed.

Lemma hex2bytes_error h e : Stateful.hex2bytes h = Err e -> e = TypeError.
Proof.
  unfold Stateful.hex2bytes, Script_fromHex. case_bool_decide; [done|].
  destruct (fromBuffer_loop_Ok (length h) h) as [s ->].
  cbn. by apply (chunk0_buf_error s).
Qed.

Lemma fmap_error {A B} (f : A -> B) (m : result A) e :
  f <$> m = Err e -> m = Err e.
Proof. destruct m; cbn; [done | by intros [= <-]]. Qed.

Lemma deserializer_cast_error type h t :
  Stateful.deserializer type h = Err (Error_cannot_cast t) ->
  t = type /\ type ∉ ScryptType.all.
Proof.
  unfold Stateful.deserializer.
  repeat (match goal with
          | |- context [String.eqb type ?k] =>
              destruct (String.eqb_spec type k) as [-> | ?]
          end;
    [ cbv iota; intros H;
      first
        [ apply fmap_error in H;
          first [ by apply hex2int_error in H
                | by apply hex2bytes_error in H
                | unfold Stateful.hex2bool in H;
                  by repeat case_bool_decide ]
        | destruct (Stateful.hex2int h) as [?|?] eqn:Hn;
          [ cbn in H; unfold SigHashType in H; by case_bool_decide
          | cbn in H; injection H as ->; by apply hex2int_error in Hn ] ]
    | cbv iota ]).
  intros [= ->]. split; [done|].
  unfold ScryptType.all. rewrite !elem_of_cons, elem_of_nil. tauto.
Qed.

(** X5.  [deserializer] reports that a type cannot be cast exactly for the
    names outside the twelve primitive kinds: for such a name it throws
    that error whatever the input, and for one of the twelve it never
    does.  A Boolean fails exactly on an input that is neither 01 nor 00,
    with the invalid-hex error that names the input. *)
Theorem deserializer_errors type h e t :
  (type ∉ ScryptType.all <->
   Stateful.deserializer type h = Err (Error_cannot_cast type)) /\
  (Stateful.deserializer type h = Err (Error_cannot_cast t) -> t = type) /\
  (Stateful.deserializer ScryptType.BOOL h = Err e <->
   e = Error_invalid_hex h /\ h <> [1] /\ h <> [0]).
Proof.
  split; [split|split].
  - intros Hout. unfold Stateful.deserializer.
    repeat (match goal with
            | |- context [String.eqb type ?k] =>
                destruct (String.eqb_spec type k) as [-> | ?]
            end;
      [ exfalso; apply Hout; apply (bool_decide_unpack _); vm_compute; exact I
      | cbv iota ]).
    done.
  - intros H. by apply (deserializer_cast_error type h type).
  - intros H. by apply (deserializer_cast_error type h t).
  - change (Stateful.deserializer ScryptType.BOOL h)
      with (Bool <$> Stateful.hex2bool h).
    unfold Stateful.hex2bool. repeat case_bool_decide; cbn; split;
      try done; try by intros (_ & ? & ?).
    + by intros [= <-].
    + by intros (-> & _).
Qed.

(** ** [Stateful.serialize] *)

(** X6.  [serialize] writes a bigint without a length byte, in its
    shortest sign-and-magnitude form: [bin2num] reads the number back, the
    form is empty for 0 and for 0 only, and two numbers never share a
    form. *)
Theorem serialize_bigint n :
  exists s,
    Stateful.serialize (Int n) = Ok s /\
    bin2num s = n /\
    (s = [] <-> n = 0) /\
    (forall m, Stateful.serialize (Int m) = Ok s -> m = n).
Proof.
  assert (forall k, bin2num (if k =? 0 then [] else BN_toSM_little k) = k) as Hinv.
  { intros k. destruct (Z.eqb_spec k 0) as [-> | Hk]; [done|].
    by apply bin2num_toSM. }
  exists (if n =? 0 then [] else BN_toSM_little n).
  split; [done|]. split; [apply Hinv|]. split.
  - destruct (Z.eqb_spec n 0) as [-> | Hn]; [done|].
    split; [|done]. intros H. by apply BN_toSM_little_nonempty in H.
  - intros m [= H]. rewrite <- (Hinv m), <- (Hinv n). by rewrite H.
Qed.

(** X7.  For a PrivKey [serialize] calls [int2hex], as [toHex] does, and
    not the bare form that it writes for a bigint: the result carries the
    length byte of a push, [hex2int] decodes it to the number, and it is
    longer than what [serialize] writes for the same number as a bigint. *)
Theorem serialize_privkey_pushes n h s :
  Stateful.serialize (PrivKey n) = Ok h ->
  Stateful.serialize (Int n) = Ok s ->
  Stateful.toHex (PrivKey n) = Ok h /\
  Stateful.hex2int h = Ok n /\
  (length s < length h)%nat.
Proof.
  intros Hp Hs.
  change (Stateful.serialize (PrivKey n)) with (Stateful.int2hex n) in Hp.
  split; [done|]. split; [by apply hex2int_int2hex|].
  injection Hs as <-. unfold Stateful.int2hex in Hp.
  destruct (Z.eqb_spec n 0) as [-> | Hn].
  - injection Hp as <-. simpl. lia.
  - apply push_cases in Hp. cbv zeta in Hp.
    destruct Hp as [[_ ->] | [[_ ->] | [[_ ->] | [_ ->]]]];
      simpl; rewrite ?length_app; simpl; lia.
Qed.

Lemma serialize_privkey_pushes_witness :
  Stateful.toHex (PrivKey 5) = Ok [1; 5] /\
  Stateful.hex2int [1; 5] = Ok 5 /\
  (length [5] < length [1; 5])%nat.
Proof. apply (serialize_privkey_pushes 5 [1; 5] [5]); reflexivity. Defined.

(** ** Building a state *)

Lemma Chunk_toBuffer_error c e : Chunk_toBuffer c = Err e -> e = TypeError.
Proof.
  unfold Chunk_toBuffer. destruct (chunk_opcodenum c); [|by intros [= <-]].
  destruct (chunk_buf c); [|done]. by repeat case_match.
Qed.

Lemma push_error (data : hex) e : push data = Err e -> e = TypeError.
Proof.
  unfold push, Script_fromASM. cbn [Script_toHex].
  destruct (Chunk_toBuffer _) eqn:Hc; [done|]. cbn. intros [= <-].
  by apply Chunk_toBuffer_error in Hc.
Qed.

(** The encoder throws nothing but a TypeError. *)
Lemma toHex_error x e : Stateful.toHex x = Err e -> e = TypeError.
Proof.
  destruct x as [n | b | [[n | b] type] | | | |]; cbn; try done.
  - apply push_error.
  - destruct (String.eqb type ScryptType.PRIVKEY); cbn; [apply push_error|].
    by intros [= <-].
  - destruct (String.eqb type ScryptType.PRIVKEY); cbn; [by intros [= <-]|].
    unfold Stateful.bytes2hex. case_bool_decide; [done|]. apply push_error.
Qed.

Lemma mapM_error {A B} (f : A -> result B) xs e :
  mapM f xs = Err e -> exists x, x ∈ xs /\ f x = Err e.
Proof.
  induction xs as [|x xs IH]; [done|]. cbn [mapM].
  destruct (f x) as [y|e'] eqn:Hx; cbn.
  - destruct (mapM f xs) as [ys|e'] eqn:Hxs; cbn; [done|].
    intros [= <-]. destruct IH as (x' & Hin & Hx'); [done|].
    exists x'. split; [by right | done].
  - intros [= <-]. exists x. split; [by left | done].
Qed.

Lemma state_body_inv args_ isGenesis :
  (exists encs,
     mapM (fun a => Stateful.toHex (arg_value a)) args_ = Ok encs /\
     Stateful.state_body args_ isGenesis
     = Ok (Stateful.bool2hex isGenesis ++ concat encs)) \/
  Stateful.state_body args_ isGenesis = Err TypeError.
Proof.
  unfold Stateful.state_body. cbn.
  destruct (mapM _ args_) as [encs|e] eqn:Henc; cbn.
  - left. by exists encs.
  - right. apply mapM_error in Henc as (a & _ & Ha).
    by rewrite (toHex_error _ _ Ha).
Qed.

Section BuildStateMore.

Context {TypeResolver : Type}.
Variable flatternArg :
  Argument -> TypeResolver -> FlattenOptions -> result Arguments.

(** What a blob that [buildState] returned is made of. *)
Lemma buildState_inv args isGenesis resolver blob :
  Stateful.buildState flatternArg args isGenesis resolver = Ok blob ->
  exists args_ encs,
    Stateful.flatMap
      (fun arg => flatternArg arg resolver (mkOptions true false)) args
      = Ok args_ /\
    args_ <> [] /\
    mapM (fun a => Stateful.toHex (arg_value a)) args_ = Ok encs /\
    let body := Stateful.bool2hex isGenesis ++ concat encs in
    Z.of_nat (length body) < 2 ^ 31 /\
    blob = body ++ writeUInt32LE (Z.of_nat (length body)) ++ [0].
Proof.
  intros H.
  destruct (Stateful.flatMap
              (fun arg => flatternArg arg resolver (mkOptions true false)) args)
    as [args_|] eqn:Hflat.
  2: { unfold Stateful.buildState in H. by rewrite Hflat in H. }
  destruct args_ as [|a args_].
  { unfold Stateful.buildState in H. by rewrite Hflat in H. }
  destruct (mapM (fun a => Stateful.toHex (arg_value a)) (a :: args_))
    as [encs|] eqn:Henc.
  2: { unfold Stateful.buildState, Stateful.state_body in H.
       rewrite Hflat in H. cbn [mbind result_bind length Nat.leb] in H.
       cbn [Stateful.toHex] in H. cbn [mbind result_bind] in H.
       by rewrite Henc in H. }
  exists (a :: args_), encs. split; [done|]. split; [done|]. split; [done|].
  rewrite (buildState_blob flatternArg args isGenesis resolver (a :: args_) encs)
    in H by done.
  cbv zeta. destruct (Z.ltb_spec (Z.of_nat
     (length (Stateful.bool2hex isGenesis ++ concat encs))) (2 ^ 31)); [|done].
  split; [done|]. by injection H as <-.
Qed.

(** X8.  [buildState] throws its error 'no state property found' when the
    arguments flatten to no leaf at all, and in no other case: with a leaf
    or more, what it throws is a TypeError of the encoder, or the error of
    a body whose length does not fit the four bytes of the trailer. *)
Theorem buildState_no_state_property args isGenesis resolver args_ :
  Stateful.flatMap
    (fun arg => flatternArg arg resolver (mkOptions true false)) args
    = Ok args_ ->
  (Stateful.buildState flatternArg args isGenesis resolver
     = Err Error_no_state_property
   <-> args_ = []) /\
  (forall e,
     Stateful.buildState flatternArg args isGenesis resolver = Err e ->
     e = Error_no_state_property \/ e = TypeError \/
     exists n, e = Error_cannot_fit n 4).
Proof.
  intros Hflat. unfold Stateful.buildState. rewrite Hflat.
  cbn [mbind result_bind]. destruct args_ as [|a args_].
  { split; [done|]. intros e [= <-]. by left. }
  cbn [length Nat.leb].
  destruct (state_body_inv (a :: args_) isGenesis) as [(encs & _ & ->) | ->].
  2: { split; [done|]. intros e [= <-]. right. by left. }
  cbn [mbind result_bind].
  destruct (Stateful.bool2hex isGenesis ++ concat encs) as [|b0 body] eqn:Hb.
  { by destruct isGenesis. }
  destruct (Z.ltb_spec (Z.of_nat (length (b0 :: body))) (2 ^ 31)).
  - rewrite num2bin_4 by lia. done.
  - rewrite (num2bin_overflow (Z.of_nat (length (b0 :: body))) 4);
      [|simpl length; lia | done].
    split; [done|]. intros e [= <-]. right. right. eauto.
Qed.

(** X9.  A blob that [buildState] returned is found again behind any
    script: for every prefix [pre], the length that [parseStateHex] reads
    in the trailer of [pre ++ blob] is the length of the body, and the
    state that it cuts out is the body itself, which starts with the
    isGenesis byte; no byte of the prefix gets into it. *)
Theorem buildState_located args isGenesis resolver blob pre :
  Stateful.buildState flatternArg args isGenesis resolver = Ok blob ->
  exists leaves,
    let body := Stateful.bool2hex isGenesis ++ leaves in
    blob = body ++ writeUInt32LE (Z.of_nat (length body)) ++ [0] /\
    Stateful.stateLenOf (pre ++ blob) = Z.of_nat (length body) /\
    Stateful.stateHexOf (pre ++ blob) = body.
Proof.
  intros H.
  destruct (buildState_inv args isGenesis resolver blob H)
    as (args_ & encs & _ & _ & _ & Hlt & ->).
  exists (concat encs). cbv zeta in *. split; [done|]. split.
  - rewrite app_assoc. rewrite stateLenOf_app by done.
    apply bin2num_writeUInt32LE. lia.
  - by apply stateHexOf_wellformed.
Qed.

End BuildStateMore.

Lemma buildState_no_state_property_witness :
  buildState [] true (fun type => type) = Err Error_no_state_property.
Proof.
  apply (proj1 (buildState_no_state_property flatternArg [] true
                  (fun type => type) [] eq_refl)).
  reflexivity.
Defined.

Lemma buildState_located_witness :
  exists leaves,
    let body := Stateful.bool2hex true ++ leaves in
    [1; 1; 5; 1; 4; 0; 0; 0; 0]
    = body ++ writeUInt32LE (Z.of_nat (length body)) ++ [0] /\
    Stateful.stateLenOf ([118; 169] ++ [1; 1; 5; 1; 4; 0; 0; 0; 0])
    = Z.of_nat (length body) /\
    Stateful.stateHexOf ([118; 169] ++ [1; 1; 5; 1; 4; 0; 0; 0; 0]) = body.
Proof.
  apply (buildState_located flatternArg counterState true (fun type => type)).
  reflexivity.
Defined.

(** ** Parsing a state: what the script may hold *)

Section ParseStateMore.

Context {TypeResolver : Type}.
Variable flatternArg :
  Argument -> TypeResolver -> FlattenOptions -> result Arguments.
Variable deserializeArgfromHex :
  TypeResolver -> Argument -> gmap string hex -> result Argument.
Variable contract : Stateful.AbstractContract TypeResolver.

Local Abbreviation parse :=
  (Stateful.parseStateHex flatternArg deserializeArgfromHex contract).

(** X10.  The isGenesis flag survives the round trip whatever the
    contract and the values are: when [buildState] returned a blob for the
    flag, every result that [parseStateHex] returns on a script that ends
    in the blob carries that flag. *)
Theorem isGenesis_roundtrip args isGenesis resolver blob pre r :
  Stateful.buildState flatternArg args isGenesis resolver = Ok blob ->
  parse (pre ++ blob) = Ok r ->
  r.1 = isGenesis.
Proof.
  intros Hb Hp. destruct r as [g parsed].
  destruct (buildState_inv flatternArg args isGenesis resolver blob Hb)
    as (args_ & encs & _ & _ & _ & Hlt & ->).
  cbv zeta in Hlt. unfold Stateful.parseStateHex in Hp.
  rewrite stateHexOf_wellformed in Hp by done.
  destruct isGenesis; cbn [Stateful.bool2hex app] in Hp;
    by apply readState_isGenesis in Hp.
Qed.

(** X11.  A script whose trailer announces a state of no byte, or a
    negative length, is not parsed: the state that is cut out is empty,
    and reading the isGenesis byte fails with the RangeError of the
    buffer. *)
Theorem parseStateHex_no_state script :
  Stateful.stateLenOf script <= 0 -> parse script = Err RangeError.
Proof.
  intros Hle. unfold Stateful.parseStateHex, Stateful.stateHexOf.
  by rewrite substr_empty.
Qed.

(** X12.  The result of [parseStateHex] depends on the state and on
    nothing before it: when the four length bytes [l4] give the length of
    [body], the script [pre ++ body ++ l4 ++ [v]] is parsed as the script
    without [pre] is, namely as the walk over [body]. *)
Theorem parseStateHex_prefix_independent pre body l4 v :
  length l4 = 4%nat ->
  bin2num l4 = Z.of_nat (length body) ->
  parse (pre ++ body ++ l4 ++ [v]) = parse (body ++ l4 ++ [v]) /\
  parse (pre ++ body ++ l4 ++ [v])
  = Stateful.readState flatternArg deserializeArgfromHex contract body.
Proof.
  intros H4 Hlen.
  assert (forall p, parse (p ++ body ++ l4 ++ [v])
            = Stateful.readState flatternArg deserializeArgfromHex contract body)
    as Hp.
  { intros p. unfold Stateful.parseStateHex. f_equal.
    rewrite (app_assoc p body). rewrite stateHexOf_whole
      by (rewrite ?length_app; lia).
    rewrite Hlen.
    destruct body as [|b0 body'].
    { by rewrite substr_empty. }
    rewrite substr_inside by (rewrite ?length_app; lia).
    rewrite length_app.
    replace (Z.to_nat (Z.of_nat (length p + length (b0 :: body'))
                       - Z.of_nat (length (b0 :: body'))))
      with (length p) by lia.
    rewrite drop_app_length, Nat2Z.id. by rewrite take_ge. }
  split; [|apply Hp]. rewrite (Hp pre). symmetry. apply (Hp []).
Qed.

(** X13.  [parseStateHex] does not check that the walk used up the state:
    when the leaves of the contract are read from the bytes [leaves],
    whatever follows them, then the bytes [junk] between the last leaf and
    the trailer change nothing in the result. *)
Theorem parseStateHex_ignores_trailing pre g leaves junk v dummyArgs m :
  Stateful.flatMap
    (fun p => flatternArg (with_value p (JsBoolean false))
                (Stateful.resolver contract) (mkOptions true true))
    (Stateful.stateProps contract) = Ok dummyArgs ->
  (forall rest,
     Stateful.readLeaves dummyArgs ∅ (leaves ++ rest) = Ok (m, rest)) ->
  Z.of_nat (length (g :: leaves ++ junk)) < 2 ^ 31 ->
  parse (pre ++ (g :: leaves ++ junk)
             ++ writeUInt32LE (Z.of_nat (length (g :: leaves ++ junk))) ++ [v])
  = parse (pre ++ (g :: leaves)
               ++ writeUInt32LE (Z.of_nat (length (g :: leaves))) ++ [v]).
Proof.
  intros Hflat Hwalk Hlen. unfold Stateful.parseStateHex.
  rewrite !stateHexOf_wellformed
    by (revert Hlen; cbn [length]; rewrite ?length_app; lia).
  unfold Stateful.readState. cbn [readUInt8 mbind result_bind].
  rewrite Hflat. cbn [mbind result_bind].
  rewrite (Hwalk junk). pose proof (Hwalk []) as H0.
  rewrite app_nil_r in H0. by rewrite H0.
Qed.

End ParseStateMore.

Lemma isGenesis_roundtrip_witness : (true, counterState).1 = true.
Proof.
  apply (isGenesis_roundtrip flatternArg deserializeArgfromHex counterContract
           counterState true (fun type => type) [1; 1; 5; 1; 4; 0; 0; 0; 0]
           [118; 169] (true, counterState)); reflexivity.
Defined.

Lemma parseStateHex_no_state_witness :
  parseStateHex counterContract [] = Err RangeError.
Proof.
  apply (parseStateHex_no_state flatternArg deserializeArgfromHex
           counterContract []).
  vm_compute. discriminate.
Defined.

Lemma parseStateHex_prefix_independent_witness :
  parseStateHex counterContract
    ([118; 169] ++ [1; 1; 5; 1] ++ [4; 0; 0; 0] ++ [0])
  = parseStateHex counterContract ([1; 1; 5; 1] ++ [4; 0; 0; 0] ++ [0]) /\
  parseStateHex counterContract
    ([118; 169] ++ [1; 1; 5; 1] ++ [4; 0; 0; 0] ++ [0])
  = Stateful.readState flatternArg deserializeArgfromHex counterContract
      [1; 1; 5; 1].
Proof.
  apply (parseStateHex_prefix_independent flatternArg deserializeArgfromHex
           counterContract [118; 169] [1; 1; 5; 1] [4; 0; 0; 0] 0); reflexivity.
Defined.

Lemma parseStateHex_ignores_trailing_witness :
  parseStateHex counterContract
    ([118; 169] ++ (1 :: [1; 5; 1] ++ [9; 9])
       ++ writeUInt32LE (Z.of_nat (length (1 :: [1; 5; 1] ++ [9; 9]))) ++ [0])
  = parseStateHex counterContract
      ([118; 169] ++ (1 :: [1; 5; 1])
         ++ writeUInt32LE (Z.of_nat (length (1 :: [1; 5; 1]))) ++ [0]).
Proof.
  refine (parseStateHex_ignores_trailing flatternArg deserializeArgfromHex
            counterContract [118; 169] 1 [1; 5; 1] [9; 9] 0 _
            (<[template_key "done" := [1]]>
               (<[template_key "counter" := [1; 5]]> ∅))
            eq_refl _ _).
  - intros rest. reflexivity.
  - reflexivity.
Defined.

Lemma readLeaves_bool_short leaves m (bs : hex) :
  Forall (fun p => arg_type p = ScryptType.BOOL) leaves ->
  (length bs < length leaves)%nat ->
  Stateful.readLeaves leaves m bs = Err RangeError.
Proof.
  intros Hb. revert m bs.
  induction Hb as [|p leaves Hp _ IH]; intros m bs Hlen; [simpl in Hlen; lia|].
  cbn [Stateful.readLeaves]. unfold bind_reader.
  destruct bs as [|b bs].
  - unfold Stateful.readLeaf. by rewrite Hp.
  - rewrite readLeaf_bool by done. apply IH. simpl in Hlen. lia.
Qed.

(** X14.  A state that is too short for its contract fails while it is
    walked, with the RangeError of the buffer: for a contract whose
    properties are all Boolean, a body of the isGenesis byte and fewer
    bytes than there are properties is never parsed. *)
Theorem parseStateHex_bool_runs_out pre props (resolver : LeafResolver) g bs v :
  Forall (fun p => resolver (param_type p) = ScryptType.BOOL) props ->
  (length bs < length props)%nat ->
  Z.of_nat (length (g :: bs)) < 2 ^ 31 ->
  parseStateHex (Stateful.mkContract props resolver)
    (pre ++ (g :: bs) ++ writeUInt32LE (Z.of_nat (length (g :: bs))) ++ [v])
  = Err RangeError.
Proof.
  intros Hbool Hlen Hfit. unfold parseStateHex, Stateful.parseStateHex.
  rewrite stateHexOf_wellformed by done.
  unfold Stateful.readState. cbn [readUInt8 mbind result_bind].
  cbn [Stateful.stateProps Stateful.resolver].
  rewrite flatMap_dummy. cbn [mbind result_bind].
  rewrite readLeaves_bool_short; [done | | by rewrite length_fmap].
  apply Forall_fmap. by apply (Forall_impl _ _ _ Hbool).
Qed.

Lemma parseStateHex_bool_runs_out_witness :
  parseStateHex
    (Stateful.mkContract [mkParam "open" "bool"; mkParam "done" "bool"]
       (fun type => type))
    ([118; 169] ++ (1 :: [1])
       ++ writeUInt32LE (Z.of_nat (length (1 :: [1]))) ++ [0])
  = Err RangeError.
Proof.
  refine (parseStateHex_bool_runs_out [118; 169]
            [mkParam "open" "bool"; mkParam "done" "bool"] (fun type => type)
            1 [1] 0 _ _ _).
  - repeat constructor.
  - simpl. lia.
  - reflexivity.
Defined.

(** ** The round trip of a state of primitive properties *)

(** X15.  The round trip of a state whose properties are declared with
    primitive kinds, behind any script: when the properties have distinct
    names and every value is recoverable for the declared type of its
    property (any boolean, Integer or PrivKey, any byte string but the
    empty one for the eight kinds carried as bytes), [parseStateHex]
    returns, from the blob that [buildState] made, the flag and the
    arguments with their names, their types and their values. *)
Theorem state_roundtrip pre (args : Arguments) isGenesis blob :
  NoDup (arg_name <$> args) ->
  Forall (fun a => Recoverable (arg_type a) (arg_value a)) args ->
  buildState args isGenesis (fun type => type) = Ok blob ->
  parseStateHex
    (Stateful.mkContract (paramOf <$> args) (fun type => type)) (pre ++ blob)
  = Ok (isGenesis, args).
Proof.
  intros Hnd Hrec Hb.
  by apply (roundtrip_recoverable pre args isGenesis blob).
Qed.

Lemma state_roundtrip_witness :
  parseStateHex
    (Stateful.mkContract
       (paramOf <$> [mkArg "amount" ScryptType.INT (Int 1000);
                     mkArg "owner" ScryptType.PUBKEY (PubKey [2; 170])])
       (fun type => type))
    ([118; 169] ++ [0; 2; 232; 3; 2; 2; 170; 7; 0; 0; 0; 0])
  = Ok (false,
        [mkArg "amount" ScryptType.INT (Int 1000);
         mkArg "owner" ScryptType.PUBKEY (PubKey [2; 170])]).
Proof.
  apply (state_roundtrip [118; 169]
           [mkArg "amount" ScryptType.INT (Int 1000);
            mkArg "owner" ScryptType.PUBKEY (PubKey [2; 170])] false).
  - apply (bool_decide_unpack _). vm_compute. exact I.
  - apply Forall_cons. split; [apply rec_int|].
    apply Forall_cons. split; [|constructor].
    apply (rec_bytes ScryptType.PUBKEY [2; 170]); [|done].
    apply (bool_decide_unpack _). vm_compute. exact I.
  - reflexivity.
Defined.

(** ** The default state *)

Lemma defaultHex_decoded p :
  arg_type p ∈ plainKinds ->
  exists h, Stateful.defaultHex p = Ok h /\
            Stateful.deserializer (arg_type p) h = Ok (defaultValue (arg_type p)).
Proof.
  destruct p as [name type dummy]. cbn [arg_type].
  unfold plainKinds, byteKinds. cbn [app]. rewrite !elem_of_cons. intros H.
  repeat (destruct H as [-> | H]); [ .. | by apply elem_of_nil in H];
    eexists; split; reflexivity.
Qed.

Lemma defaultHex_known p :
  arg_type p ∈ ScryptType.all -> exists h, Stateful.defaultHex p = Ok h.
Proof.
  destruct p as [name type dummy]. cbn [arg_type].
  unfold ScryptType.all. rewrite !elem_of_cons. intros H.
  repeat (destruct H as [-> | H]); [ .. | by apply elem_of_nil in H];
    eexists; reflexivity.
Qed.

Lemma defaultHex_unknown p :
  arg_type p ∉ ScryptType.all ->
  Stateful.defaultHex p = Err (Error_unknown_type (arg_name p) (arg_type p)).
Proof.
  destruct p as [name type dummy]. cbn [arg_type arg_name].
  unfold ScryptType.all. rewrite !not_elem_of_cons.
  intros (H1 & H2 & H3 & H4 & H5 & H6 & H7 & H8 & H9 & H10 & H11 & H12 & _).
  unfold Stateful.defaultHex. cbn [arg_type arg_name].
  repeat match goal with
         | H : type ≠ ?k |- context [String.eqb type ?k] =>
             rewrite (proj2 (String.eqb_neq type k) H)
         end.
  done.
Qed.

(** The [forEach] of [buildDefaultStateArgs]: over leaves that have a
    placeholder, and then over one that has none. *)
Lemma defaultTemplate_walk leaves stored m :
  Forall2 (fun p h => Stateful.defaultHex p = Ok h) leaves stored ->
  foldl (fun acc p =>
           m ← acc;
           h ← Stateful.defaultHex p;
           Ok (<[template_key (arg_name p) := h]> m))
        (Ok m) leaves
  = Ok (storeAll leaves stored m).
Proof.
  intros H. revert m. induction H as [|p h leaves stored Hp _ IH]; intros m; [done|].
  cbn [foldl storeAll]. cbn [mbind result_bind]. rewrite Hp.
  cbn [mbind result_bind]. apply IH.
Qed.

Lemma defaultTemplate_err leaves e :
  foldl (fun (acc : result (gmap string hex)) p =>
           m ← acc;
           h ← Stateful.defaultHex p;
           Ok (<[template_key (arg_name p) := h]> m))
        (Err e) leaves
  = Err e.
Proof. induction leaves as [|p leaves IH]; [done|]. cbn. apply IH. Qed.

Lemma defaultTemplate_unknown good p rest :
  Forall (fun q => arg_type q ∈ ScryptType.all) good ->
  arg_type p ∉ ScryptType.all ->
  foldl (fun (acc : result (gmap string hex)) p =>
           m ← acc;
           h ← Stateful.defaultHex p;
           Ok (<[template_key (arg_name p) := h]> m))
        (Ok ∅) (good ++ p :: rest)
  = Err (Error_unknown_type (arg_name p) (arg_type p)).
Proof.
  intros Hgood Hp. rewrite foldl_app.
  assert (exists stored,
            Forall2 (fun p h => Stateful.defaultHex p = Ok h) good stored)
    as (stored & Hst).
  { induction Hgood as [|q good Hq _ IH].
    - exists []. constructor.
    - destruct IH as (stored & H1).
      destruct (defaultHex_known q Hq) as (h & Hh).
      exists (h :: stored). constructor; done. }
  rewrite (defaultTemplate_walk _ _ _ Hst). cbn [foldl mbind result_bind].
  rewrite (defaultHex_unknown p Hp).
  cbn [mbind result_bind]. by rewrite defaultTemplate_err.
Qed.

Lemma buildDefaultStateArgs_primitive props :
  NoDup (param_name <$> props) ->
  Forall (fun p => param_type p ∈ plainKinds) props ->
  buildDefaultStateArgs (Stateful.mkContract props (fun type => type))
  = Ok (defaultArg <$> props).
Proof.
  intros Hnd Hall. unfold buildDefaultStateArgs, Stateful.buildDefaultStateArgs.
  cbn [Stateful.stateProps Stateful.resolver].
  rewrite flatMap_dummy. cbn [mbind result_bind].
  set (resolver := fun type : string => type).
  assert (exists stored,
            Forall2 (fun p h => Stateful.defaultHex p = Ok h)
              (dummyLeaf resolver <$> props) stored /\
            Forall2 (fun p h => Stateful.deserializer (param_type p) h
                                = Ok (defaultValue (param_type p)))
              props stored) as (stored & Hst & Hdec).
  { clear Hnd. induction Hall as [|p props Hp _ IH].
    - exists []. split; constructor.
    - destruct IH as (stored & H1 & H2).
      destruct (defaultHex_decoded (dummyLeaf resolver p) Hp) as (h & Hh & Hd).
      exists (h :: stored). split; constructor; done. }
  rewrite (defaultTemplate_walk _ _ _ Hst). cbn [mbind result_bind].
  apply mapM_Ok. apply Forall2_fmap_r.
  apply Forall2_same_length_lookup_2; [done|].
  intros i p p' Hp Hp'. rewrite Hp in Hp'. injection Hp' as <-.
  destruct (stored !! i) as [h|] eqn:Hh.
  2: { apply lookup_ge_None in Hh. apply lookup_lt_Some in Hp.
       apply Forall2_length in Hdec. lia. }
  pose proof (Forall2_lookup_lr _ _ _ _ _ _ Hdec Hp Hh) as Hd.
  apply (deserializeArgfromHex_leaf resolver _ _ _ _ h); [|done].
  apply (storeAll_lookup _ _ _ i (dummyLeaf resolver p)); try done.
  - by rewrite <- list_fmap_compose.
  - by rewrite list_lookup_fmap, Hp.
Qed.

(** X16.  The default state of a contract whose properties have distinct
    names and are declared with primitive kinds other than SigHashType:
    [buildDefaultStateArgs] returns one argument for each property, with
    its name, its type and the default value of that type: 0 for an
    Integer and a PrivKey, true for a Boolean, the one byte 00 for the
    kinds that are byte strings. *)
Theorem buildDefaultStateArgs_defaults props :
  NoDup (param_name <$> props) ->
  Forall (fun p => param_type p ∈ plainKinds) props ->
  buildDefaultStateArgs (Stateful.mkContract props (fun type => type))
  = Ok (defaultArg <$> props) /\
  Forall2 (fun p a =>
             arg_name a = param_name p /\ arg_type a = param_type p /\
             arg_value a
             = (if String.eqb (param_type p) ScryptType.BOOL then Bool true
                else if String.eqb (param_type p) ScryptType.INT then Int 0
                else if String.eqb (param_type p) ScryptType.PRIVKEY
                     then PrivKey 0
                else JsString (mkLiteral (LitBytes [0]) (param_type p))))
          props (defaultArg <$> props).
Proof.
  intros Hnd Hall. split; [by apply buildDefaultStateArgs_primitive|].
  apply Forall2_fmap_r, Forall_Forall2_diag.
  apply (Forall_impl _ _ _ Hall). intros p Hp.
  split; [done|]. split; [done|]. cbn [defaultArg arg_value].
  revert Hp. unfold plainKinds, byteKinds. cbn [app].
  rewrite !elem_of_cons, elem_of_nil. intros Hp.
  repeat (destruct Hp as [-> | Hp]); try done.
Qed.

Lemma buildDefaultStateArgs_defaults_witness :
  buildDefaultStateArgs counterContract
  = Ok [mkArg "counter" ScryptType.INT (Int 0);
        mkArg "done" ScryptType.BOOL (Bool true)].
Proof.
  apply (buildDefaultStateArgs_defaults
           [mkParam "counter" ScryptType.INT; mkParam "done" ScryptType.BOOL]).
  - apply (bool_decide_unpack _). vm_compute. exact I.
  - apply Forall_cons. split; [apply (bool_decide_unpack _); vm_compute; exact I|].
    apply Forall_cons. split; [apply (bool_decide_unpack _); vm_compute; exact I|].
    constructor.
Defined.

Section DefaultStateLeaves.

Context {TypeResolver : Type}.
Variable flatternArg :
  Argument -> TypeResolver -> FlattenOptions -> result Arguments.
Variable deserializeArgfromHex :
  TypeResolver -> Argument -> gmap string hex -> result Argument.
Variable contract : Stateful.AbstractContract TypeResolver.

(** X17.  [buildDefaultStateArgs] looks for a placeholder leaf by leaf,
    over the leaves that [flatternArg] returns for the properties: it
    throws at the first leaf whose type is none of the twelve primitive
    kinds, with the error 'unknown type' that names the leaf and its type,
    whatever the leaves after it are and before anything is decoded. *)
Theorem buildDefaultStateArgs_unknown_type good p rest :
  Stateful.flatMap
    (fun q => flatternArg (with_value q (JsBoolean false))
                (Stateful.resolver contract) (mkOptions true true))
    (Stateful.stateProps contract)
  = Ok (good ++ p :: rest) ->
  Forall (fun q => arg_type q ∈ ScryptType.all) good ->
  arg_type p ∉ ScryptType.all ->
  Stateful.buildDefaultStateArgs flatternArg deserializeArgfromHex contract
  = Err (Error_unknown_type (arg_name p) (arg_type p)).
Proof.
  intros Hflat Hgood Hp. unfold Stateful.buildDefaultStateArgs.
  rewrite Hflat. cbn [mbind result_bind].
  by rewrite defaultTemplate_unknown.
Qed.

End DefaultStateLeaves.

Lemma buildDefaultStateArgs_unknown_type_witness :
  buildDefaultStateArgs
    (Stateful.mkContract
       [mkParam "counter" "int"; mkParam "owner" "Person";
        mkParam "done" "bool"]
       (fun type => type))
  = Err (Error_unknown_type "owner" "Person").
Proof.
  apply (buildDefaultStateArgs_unknown_type flatternArg deserializeArgfromHex
           (Stateful.mkContract
              [mkParam "counter" "int"; mkParam "owner" "Person";
               mkParam "done" "bool"]
              (fun type => type))
           [mkArg "counter" "int" (JsBoolean false)]
           (mkArg "owner" "Person" (JsBoolean false))
           [mkArg "done" "bool" (JsBoolean false)]).
  - reflexivity.
  - apply Forall_cons. split; [|constructor].
    apply (bool_decide_unpack _). vm_compute. exact I.
  - apply (bool_decide_unpack _). vm_compute. exact I.
Defined.

Lemma defaultValue_recoverable type :
  type ∈ plainKinds -> Recoverable type (defaultValue type).
Proof.
  unfold plainKinds, byteKinds. cbn [app]. rewrite !elem_of_cons. intros H.
  repeat (destruct H as [-> | H]); [ .. | by apply elem_of_nil in H].
  all: first
    [ apply rec_bool | apply rec_int | apply rec_privkey
    | apply rec_bytes;
        [apply (bool_decide_unpack _); vm_compute; exact I | done] ].
Qed.

Lemma paramOf_defaultArg (props : list ParamEntity) :
  paramOf <$> (defaultArg <$> props) = props.
Proof. induction props as [|[] props IH]; [done|]. cbn. by rewrite IH. Qed.

(** X18.  The default state of a contract whose properties have distinct
    names and are declared with primitive kinds other than SigHashType
    survives the round trip: the arguments that [buildDefaultStateArgs]
    returns for the contract are given back by [parseStateHex], with the
    flag, from the blob that [buildState] makes of them, behind any
    script. *)
Theorem default_state_roundtrip pre props isGenesis args blob :
  NoDup (param_name <$> props) ->
  Forall (fun p => param_type p ∈ plainKinds) props ->
  buildDefaultStateArgs (Stateful.mkContract props (fun type => type))
  = Ok args ->
  buildState args isGenesis (fun type => type) = Ok blob ->
  parseStateHex (Stateful.mkContract props (fun type => type)) (pre ++ blob)
  = Ok (isGenesis, args).
Proof.
  intros Hnd Hall Hdef Hb.
  rewrite buildDefaultStateArgs_primitive in Hdef by done.
  injection Hdef as <-.
  pose proof (roundtrip_recoverable pre (defaultArg <$> props)
                isGenesis blob) as H.
  fold paramOf in H. change (fun a => paramOf a) with paramOf in H.
  rewrite paramOf_defaultArg in H. apply H.
  - by rewrite <- list_fmap_compose.
  - apply Forall_fmap. apply (Forall_impl _ _ _ Hall). intros q Hq.
    by apply defaultValue_recoverable.
  - done.
Qed.

Lemma default_state_roundtrip_witness :
  parseStateHex counterContract ([118; 169] ++ [1; 1; 0; 1; 4; 0; 0; 0; 0])
  = Ok (true, [mkArg "counter" ScryptType.INT (Int 0);
               mkArg "done" ScryptType.BOOL (Bool true)]).
Proof.
  apply (default_state_roundtrip [118; 169]
           [mkParam "counter" ScryptType.INT; mkParam "done" ScryptType.BOOL]
           true).
  - apply (bool_decide_unpack _). vm_compute. exact I.
  - apply Forall_cons. split; [apply (bool_decide_unpack _); vm_compute; exact I|].
    apply Forall_cons. split; [apply (bool_decide_unpack _); vm_compute; exact I|].
    constructor.
  - reflexivity.
  - reflexivity.
Defined.

(** ** The legacy serializer, value by value *)

Lemma serializeInt_safe n :
  Z.abs n < 2 ^ 53 ->
  Serializer.serializeInt n = Ok (if n =? 0 then [0] else BN_toSM_little n).
Proof.
  intros Hn. unfold Serializer.serializeInt, Serializer.BN_fromNumber.
  destruct (n =? 0); [done|].
  by replace (Z.abs n <? 2 ^ 53) with true by (symmetry; by apply Z.ltb_lt).
Qed.

Lemma serializeInt_Ok n s :
  Serializer.serializeInt n = Ok s ->
  Z.abs n < 2 ^ 53 /\ s <> [] /\ bin2num s = n.
Proof.
  unfold Serializer.serializeInt, Serializer.BN_fromNumber.
  destruct (Z.eqb_spec n 0) as [-> | Hn0].
  - intros [= <-]. repeat split; done.
  - destruct (Z.ltb_spec (Z.abs n) (2 ^ 53)) as [Hlt | Hge]; [|done].
    cbn. intros [= <-]. split; [done|].
    split; [by apply BN_toSM_little_nonempty | by apply bin2num_toSM].
Qed.

(** X19.  [serializeInt] on an integer.  Below 2^53 in magnitude it
    returns a string that is never empty, which is what its special case
    for 0 is there for, and [bin2num] reads the number back from that
    string; from 2^53 on [BN.fromNumber] throws 'Assertion failed'.  So
    two integers are never serialized alike. *)
Theorem serializeInt_injective n :
  (Z.abs n < 2 ^ 53 <->
   exists s, Serializer.serializeInt n = Ok s /\ s <> [] /\ bin2num s = n) /\
  (2 ^ 53 <= Z.abs n <->
   Serializer.serializeInt n = Err Error_assertion_failed) /\
  (forall m s,
     Serializer.serializeInt m = Ok s -> Serializer.serializeInt n = Ok s ->
     m = n).
Proof.
  split; [|split].
  - split.
    + intros Hn. rewrite (serializeInt_safe n Hn). eexists. split; [done|].
      apply (serializeInt_Ok n). by apply serializeInt_safe.
    + intros (s & Hs & _). by apply (serializeInt_Ok n s).
  - split.
    + intros Hn. unfold Serializer.serializeInt, Serializer.BN_fromNumber.
      replace (n =? 0) with false by (symmetry; apply Z.eqb_neq; lia).
      by replace (Z.abs n <? 2 ^ 53) with false by (symmetry; apply Z.ltb_ge; lia).
    + intros He. destruct (Z.le_gt_cases (2 ^ 53) (Z.abs n)) as [|Hlt]; [done|].
      by rewrite (serializeInt_safe n) in He by lia.
  - intros m s Hm Hn.
    apply serializeInt_Ok in Hm as (_ & _ & <-).
    by apply serializeInt_Ok in Hn as (_ & _ & <-).
Qed.

Lemma push_length (data : hex) h :
  push data = Ok h ->
  (1 + length data <= length h)%nat /\
  (length h = 1 + length data <-> length data < 76)%nat.
Proof.
  intros H. apply push_cases in H. cbv zeta in H.
  destruct H as [[Hl ->] | [[Hl ->] | [[Hl ->] | [Hl ->]]]];
    cbn [length]; rewrite ?length_app; cbn [length writeUInt16LE writeUInt32LE];
    lia.
Qed.

Lemma pushes_length (asms pushes : list hex) :
  Forall2 (fun asm h => push asm = Ok h) asms pushes ->
  (sum_list_with (fun asm => 1 + length asm) asms <= length (concat pushes))%nat /\
  (sum_list_with (fun asm => 1 + length asm) asms = length (concat pushes)
   <-> Forall (fun asm => length asm < 76) asms)%nat.
Proof.
  induction 1 as [|asm h asms pushes Hh _ [IH1 IH2]].
  - split; [done|]. split; [constructor | done].
  - apply push_length in Hh as [H1 H2].
    cbn [sum_list_with concat]. rewrite length_app. split; [lia|].
    rewrite Forall_cons. split.
    + intros Heq. split; [apply H2 | apply IH2]; lia.
    + intros [Ha Hr]. apply H2 in Ha. apply IH2 in Hr. lia.
Qed.

(** X20.  The length that [serializeState] appends counts one length byte
    for every value.  When the tokens are assembled into push-data
    elements, it is the size of the assembled values exactly when every
    value is shorter than 76 bytes; with a longer value, whose push takes
    an OP_PUSHDATA prefix, the length that is written is smaller than that
    size. *)
Theorem serializeState_counts_short_pushes (state : Serializer.State) r :
  Serializer.serializeState state = Ok r ->
  exists asms,
    mapM Serializer.serialize state.*2 = Ok asms /\
    forall pushes,
      mapM push asms = Ok pushes ->
      let size := Z.of_nat (length (concat pushes)) in
      (Forall (fun asm => (length asm < 76)%nat) asms ->
       r = asms ++ [writeUInt16LE size]) /\
      (Exists (fun asm => (76 <= length asm)%nat) asms ->
       exists n, r = asms ++ [writeUInt16LE n] /\ 0 <= n < size).
Proof.
  intros Hr. destruct (serializeState_Ok state r Hr) as [asms Hasms].
  exists asms. split; [done|]. intros pushes Hp size.
  rewrite (serializeState_eq state asms Hasms) in Hr. cbv zeta in Hr.
  set (stateLen := Z.of_nat (sum_list_with (fun asm => 1 + length asm)%nat asms))
    in *.
  destruct (Z.ltb_spec stateLen (2 ^ 15)) as [Hlt|]; [|done].
  injection Hr as <-.
  apply mapM_Ok_inv in Hp. apply pushes_length in Hp as [H1 H2].
  split.
  - intros Hall. apply H2 in Hall. do 3 f_equal. unfold stateLen, size. lia.
  - intros Hex. exists stateLen. split; [done|].
    assert (sum_list_with (fun asm => 1 + length asm)%nat asms
            <> length (concat pushes)) as Hne.
    { intros Heq. apply H2 in Heq. apply Exists_exists in Hex as (x & Hin & Hx).
      rewrite Forall_forall in Heq. specialize (Heq x Hin). lia. }
    unfold stateLen, size. lia.
Qed.

Lemma serializeState_counts_short_pushes_witness :
  exists asms,
    mapM Serializer.serialize demoState.*2 = Ok asms /\
    forall pushes,
      mapM push asms = Ok pushes ->
      let size := Z.of_nat (length (concat pushes)) in
      (Forall (fun asm => (length asm < 76)%nat) asms ->
       [[5]; [1]; [170; 187; 204]; [8; 0]] = asms ++ [writeUInt16LE size]) /\
      (Exists (fun asm => (76 <= length asm)%nat) asms ->
       exists n, [[5]; [1]; [170; 187; 204]; [8; 0]]
                 = asms ++ [writeUInt16LE n] /\ 0 <= n < size).
Proof.
  apply (serializeState_counts_short_pushes demoState
           [[5]; [1]; [170; 187; 204]; [8; 0]]).
  reflexivity.
Defined.

(** ** The ABI of the main contract *)

Lemma publicEntities_indices k fs :
  omap Compiler.abi_index (Compiler.publicEntities k fs)
  = seq k (length (filter (fun f => notConstructor f = true) fs)).
Proof.
  revert k. induction fs as [|f fs IH]; intros k; [done|].
  cbn [Compiler.publicEntities].
  destruct (String.eqb (Compiler.fn_nodeType f) "Constructor") eqn:Hc.
  - rewrite filter_cons_False by (unfold notConstructor; by rewrite Hc).
    cbn [omap list_omap Compiler.abi_index]. apply IH.
  - rewrite filter_cons_True by (unfold notConstructor; by rewrite Hc).
    cbn [omap list_omap Compiler.abi_index length seq]. f_equal. apply IH.
Qed.

Lemma publicEntities_names k fs :
  Compiler.abi_name <$> Compiler.publicEntities k fs
  = (fun f => Some (Compiler.fn_name f)) <$> fs.
Proof.
  revert k. induction fs as [|f fs IH]; intros k; [done|].
  cbn [Compiler.publicEntities].
  destruct (String.eqb (Compiler.fn_nodeType f) "Constructor");
    cbn [fmap list_fmap Compiler.abi_name]; f_equal; apply IH.
Qed.

(** X21.  [getPublicFunctionDeclaration] lists the public functions of
    the contract in their order, under their names, and numbers them: the
    indices that it gives are 0, 1, 2, ... without a gap, in order, and
    one function is left without an index exactly when its node is a
    constructor; functions that are not public take no index. *)
Theorem getPublicFunctionDeclaration_indices mainContract :
  let public :=
    filter (fun f => Compiler.isPublic f = true)
      (Compiler.cn_functions mainContract) in
  let entities := Compiler.getPublicFunctionDeclaration mainContract in
  Compiler.abi_name <$> entities
    = (fun f => Some (Compiler.fn_name f)) <$> public /\
  omap Compiler.abi_index entities
    = seq 0 (length (filter (fun f => notConstructor f = true) public)) /\
  Forall2 (fun f e => Compiler.abi_index e = None <->
                      Compiler.fn_nodeType f = "Constructor") public entities.
Proof.
  intros public entities. unfold entities, Compiler.getPublicFunctionDeclaration.
  cbv zeta. fold public. split; [apply publicEntities_names|]. split.
  - apply publicEntities_indices.
  - generalize 0%nat. induction public as [|f fs IH]; intros k; [constructor|].
    cbn [Compiler.publicEntities].
    destruct (String.eqb_spec (Compiler.fn_nodeType f) "Constructor") as [E|E];
      (constructor; [|apply IH]); cbn [Compiler.abi_index]; by split.
Qed.

Lemma getABIDeclaration_main cs main typeResolver :
  Compiler.getABIDeclaration (Compiler.mkASTRoot (cs ++ [main])) typeResolver
  = match Compiler.getConstructorDeclaration main with
    | Ok (Some ctor) =>
        Ok (Compiler.mkABI (Compiler.cn_name main)
              (resolveEntity typeResolver
                 <$> (Compiler.getPublicFunctionDeclaration main ++ [ctor])))
    | Ok None => Err TypeError
    | Err e => Err e
    end.
Proof.
  unfold Compiler.getABIDeclaration, Compiler.getContractName.
  cbn [Compiler.ast_contracts]. rewrite last_snoc. cbv zeta.
  destruct (Compiler.getConstructorDeclaration main) as [constructorABI|e];
    [|done].
  cbn [mbind result_bind].
  set (f := fun abi : option Compiler.ABIEntity => _).
  assert (forall es, mapM f (Some <$> es) = Ok (resolveEntity typeResolver <$> es))
    as Hes.
  { intros es. apply mapM_Ok. induction es; constructor; done. }
  assert (forall es x,
            mapM f (es ++ [x]) = ys ← mapM f es; y ← f x; Ok (ys ++ [y])) as Happ.
  { intros es x. induction es as [|e es IH]; cbn [mapM app].
    - destruct (f x); done.
    - destruct (f e); [|done]. cbn. rewrite IH.
      destruct (mapM f es); [|done]. cbn. by destruct (f x). }
  rewrite Happ, Hes. cbn [mbind result_bind].
  destruct constructorABI as [ctor|]; [|done].
  cbn. by rewrite fmap_app.
Qed.

(** X22.  The ABI that [getABIDeclaration] returns is that of the last
    contract of the AST and carries its name; its entities are the public
    functions of that contract, in order and with the types of their
    parameters resolved, followed by the constructor, which comes last and
    is the one entity without a name and without an index. *)
Theorem getABIDeclaration_constructor_last cs main typeResolver abi :
  Compiler.getABIDeclaration (Compiler.mkASTRoot (cs ++ [main])) typeResolver
    = Ok abi ->
  Compiler.abi_contract abi = Compiler.cn_name main /\
  exists ctor,
    Compiler.abi_abi abi
    = (resolveEntity typeResolver <$> Compiler.getPublicFunctionDeclaration main)
      ++ [ctor] /\
    Compiler.abi_type ctor = Compiler.ABIEntityType.CONSTRUCTOR /\
    Compiler.abi_name ctor = None /\
    Compiler.abi_index ctor = None /\
    Forall (fun e => Compiler.abi_type e = Compiler.ABIEntityType.FUNCTION /\
                     is_Some (Compiler.abi_name e))
      (resolveEntity typeResolver <$> Compiler.getPublicFunctionDeclaration main).
Proof.
  rewrite getABIDeclaration_main.
  destruct (Compiler.getConstructorDeclaration main) as [[ctor|]|] eqn:Hc;
    [|done..].
  intros [= <-]. split; [done|]. exists (resolveEntity typeResolver ctor).
  rewrite fmap_app. split; [done|].
  assert (Compiler.abi_type ctor = Compiler.ABIEntityType.CONSTRUCTOR /\
          Compiler.abi_name ctor = None /\ Compiler.abi_index ctor = None)
    as (H1 & H2 & H3).
  { unfold Compiler.getConstructorDeclaration in Hc.
    destruct (Compiler.cn_constructor main); [done | | by injection Hc as <-].
    destruct (Compiler.cn_properties main); [by injection Hc as <-|done]. }
  repeat split; try done.
  apply Forall_fmap. unfold Compiler.getPublicFunctionDeclaration. cbv zeta.
  generalize 0%nat. induction (filter _ _) as [|f fs IH]; intros k; [constructor|].
  cbn [Compiler.publicEntities].
  destruct (String.eqb _ _); (constructor; [|apply IH]); cbn; eauto.
Qed.

Lemma getABIDeclaration_constructor_last_witness :
  Compiler.abi_contract demoABI = Compiler.cn_name demoContract /\
  exists ctor,
    Compiler.abi_abi demoABI
    = (resolveEntity demoResolver
         <$> Compiler.getPublicFunctionDeclaration demoContract) ++ [ctor] /\
    Compiler.abi_type ctor = Compiler.ABIEntityType.CONSTRUCTOR /\
    Compiler.abi_name ctor = None /\
    Compiler.abi_index ctor = None /\
    Forall (fun e => Compiler.abi_type e = Compiler.ABIEntityType.FUNCTION /\
                     is_Some (Compiler.abi_name e))
      (resolveEntity demoResolver
         <$> Compiler.getPublicFunctionDeclaration demoContract).
Proof.
  apply (getABIDeclaration_constructor_last [] demoContract demoResolver demoABI).
  reflexivity.
Defined.


(** ** More on the leaf codec and on the size of a state *)

(** X24.  A SigHashType of one byte [s] is pushed by [toHex] as it is,
    [01 s], and [deserializer] reads the push with the Integer rule and
    hands the number to the constructor: [s] itself below 0x80, and the
    number [128 - s], which is zero or negative and which the constructor
    refuses, from 0x80 on.  So the value that was encoded is decoded
    exactly when it is below 0x80. *)
Theorem sighashtype_recovered_iff s v :
  0 <= s < 256 ->
  SigHashType s = Ok v ->
  Stateful.toHex v = Ok [1; s] /\
  Stateful.deserializer ScryptType.SIGHASHTYPE [1; s]
    = SigHashType (if s <? 128 then s else 128 - s) /\
  (Stateful.deserializer ScryptType.SIGHASHTYPE [1; s] = Ok v <-> s < 128).
Proof.
  intros Hs Hv. destruct (sighashtype_byte s Hs) as (Ht & _ & Hd).
  assert (v = SigHashLiteral s) as ->.
  { unfold SigHashType in Hv. case_bool_decide; [by injection Hv | done]. }
  split; [done|]. split; [done|]. rewrite Hd.
  destruct (Z.ltb_spec s 128) as [Hlt | Hge].
  - by split.
  - split; [|lia]. intros H. exfalso. unfold SigHashType in H.
    case_bool_decide as Hin; [|done]. revert Hin.
    unfold SignatureHashType. rewrite !elem_of_cons, elem_of_nil. lia.
Qed.

Lemma sighashtype_recovered_iff_witness :
  Stateful.toHex (SigHashLiteral 193) = Ok [1; 193] /\
  Stateful.deserializer ScryptType.SIGHASHTYPE [1; 193]
    = SigHashType (if 193 <? 128 then 193 else 128 - 193) /\
  (Stateful.deserializer ScryptType.SIGHASHTYPE [1; 193]
     = Ok (SigHashLiteral 193) <-> 193 < 128).
Proof.
  apply (sighashtype_recovered_iff 193 (SigHashLiteral 193)); [lia|reflexivity].
Defined.

Lemma push_nonempty (data : hex) h : push data = Ok h -> h <> [].
Proof.
  intros H. apply push_cases in H. cbv zeta in H.
  by destruct H as [[_ ->] | [[_ ->] | [[_ ->] | [_ ->]]]].
Qed.

(** The encoder never writes an empty leaf. *)
Lemma toHex_nonempty x h : Stateful.toHex x = Ok h -> h <> [].
Proof.
  destruct x as [n | b | [[n | b] type] | | | |]; cbn;
    try (by intros [= <-]).
  - apply push_nonempty.
  - by destruct b; intros [= <-].
  - destruct (String.eqb type ScryptType.PRIVKEY); cbn;
      [apply push_nonempty | done].
  - destruct (String.eqb type ScryptType.PRIVKEY); cbn; [done|].
    unfold Stateful.bytes2hex. case_bool_decide; [by intros [= <-]|].
    apply push_nonempty.
Qed.

(** X25.  [Stateful.serialize] returns the empty string for the bigint 0,
    for false, for a literal of no bytes that is no PrivKey, and for every
    value that is neither a bigint, a boolean nor a string, and for no
    other value: these values cannot be told apart in its result. *)
Theorem serialize_empty_iff x :
  Stateful.serialize x = Ok [] <->
  x = JsBigInt 0 \/ x = JsBoolean false \/
  (exists type, String.eqb type ScryptType.PRIVKEY = false /\
                x = JsString (mkLiteral (LitBytes []) type)) \/
  typeof x ∉ ["bigint"; "boolean"; "string"].
Proof.
  split.
  - destruct x as [n | b | [[n | b] type] | | | |]; cbn.
    + destruct (Z.eqb_spec n 0) as [-> | Hn]; [by left|].
      intros [= H]. by apply BN_toSM_little_nonempty in H.
    + destruct b; [done | by right; left].
    + destruct (String.eqb type ScryptType.PRIVKEY) eqn:Ht; cbn; [|done].
      intros H. by apply push_nonempty in H.
    + destruct (String.eqb type ScryptType.PRIVKEY) eqn:Ht; cbn; [done|].
      intros [= ->]. right. right. left. by exists type.
    + intros _. do 3 right. apply (bool_decide_unpack _). vm_compute. exact I.
    + intros _. do 3 right. apply (bool_decide_unpack _). vm_compute. exact I.
    + intros _. do 3 right. apply (bool_decide_unpack _). vm_compute. exact I.
    + intros _. do 3 right. apply (bool_decide_unpack _). vm_compute. exact I.
  - intros [-> | [-> | [(type & Ht & ->) | Hx]]]; try done.
    + cbn. by rewrite Ht.
    + destruct x; cbn in *; try done; exfalso; apply Hx;
        apply (bool_decide_unpack _); vm_compute; exact I.
Qed.

Section BuildStateSize.

Context {TypeResolver : Type}.
Variable flatternArg :
  Argument -> TypeResolver -> FlattenOptions -> result Arguments.

(** X26.  Every leaf takes a byte or more in a state, for [toHex] never
    returns the empty string: a blob that [buildState] returned for [n]
    leaves has [n + 6] bytes or more, the isGenesis byte, the leaves and
    the five bytes of the trailer. *)
Theorem buildState_size args isGenesis resolver args_ blob :
  Stateful.flatMap
    (fun arg => flatternArg arg resolver (mkOptions true false)) args
    = Ok args_ ->
  Stateful.buildState flatternArg args isGenesis resolver = Ok blob ->
  (length args_ + 6 <= length blob)%nat.
Proof.
  intros Hflat Hb.
  destruct (buildState_inv flatternArg args isGenesis resolver blob Hb)
    as (args_' & encs & Hflat' & _ & Henc & _ & ->).
  rewrite Hflat in Hflat'. injection Hflat' as <-.
  apply mapM_Ok_inv in Henc.
  assert (length args_ <= length (concat encs))%nat as Hlen.
  { clear Hflat Hb.
    induction Henc as [|a h args' encs' Ha _ IH]; [done|].
    apply toHex_nonempty in Ha. cbn [concat length]. rewrite length_app.
    destruct h; [done|]. simpl. lia. }
  rewrite !length_app. cbn [length writeUInt32LE].
  destruct isGenesis; simpl; lia.
Qed.

End BuildStateSize.

Lemma buildState_size_witness :
  (length counterState + 6
   <= length ([1; 1; 5; 1; 4; 0; 0; 0; 0]%Z : hex))%nat.
Proof.
  apply (buildState_size flatternArg counterState true (fun type => type));
    reflexivity.
Defined.
